(** * urlwatch filters: a shallow embedding of [lib/urlwatch/filters.py]

    The development follows the source file top-down: the error results
    of the filter units, the match strategies ([AutoMatchFilter.match],
    [RegexMatchFilter.match]), the dispatch engine
    ([FilterBase.auto_process], [FilterBase.process]), the line filters
    ([GrepFilter], [InverseGrepFilter]), the units without subfilter and
    the stack-based element extractor ([ElementsBy]).

    Python strings are [string]s (sequences of bytes, UTF-8 for text),
    Python dicts are [gmap]s, Python lists are [list]s.  Logging is
    advisory in the source and is left out. *)

From Stdlib Require Import String Ascii.
From stdpp Require Import gmap strings list sorting.

(** ** Python values shared by the filters *)

(** The [subfilter] argument of [filter]: [None], a [str] or a [dict]. *)
Inductive Subfilter :=
  | SNone
  | SStr (s : string)
  | SDict (d : gmap string string).

(** The exceptions raised in the file, one constructor per raise site
    (all but [NotImplementedError] are [ValueError]s in the source), and
    one for whatever an external collaborator raises.
    - [UnknownFilterKind]: line 86, 'Unknown filter kind: %s:%s';
    - [UnsupportedArgument]: line 56, 'No subfilters supported for {}';
    - [MissingArgument]: lines 193, 206, 279, 293, 307 and 321;
    - [NotImplementedError]: line 93. *)
Inductive exn :=
  | UnknownFilterKind (filter_kind : string) (subfilter : Subfilter)
  | UnsupportedArgument (kind : string)
  | MissingArgument (msg : string)
  | NotImplementedError
  | ExternalError (msg : string).

(** A computation that returns or raises. *)
Inductive result (A : Type) :=
  | Ok (a : A)
  | Raise (e : exn).
Arguments Ok {A} a.
Arguments Raise {A} e.

Definition bind {A B} (r : result A) (k : A -> result B) : result B :=
  match r with
  | Ok a => k a
  | Raise e => Raise e
  end.

Notation "'let!' x ':=' r 'in' k" := (bind r (fun x => k))
  (at level 10, x name, r at level 100, k at level 200).

(** The line feed of ['\n'.join] and the double quote of ['%s="%s"']. *)
Definition LF : string := String (ascii_of_nat 10) EmptyString.
Definition DQ : string := String (ascii_of_nat 34) EmptyString.

(** [sep.join(l)] *)
Definition join (sep : string) (l : list string) : string := String.concat sep l.

(** ** The element extractor: [FilterBy] and [ElementsBy] *)

Inductive FilterBy := ATTRIBUTE | TAG.

(** The events [html.parser.HTMLParser.feed] delivers to the three
    handlers the class overrides.  An attribute without a value
    ([<input disabled>]) is delivered with the value [None]. *)
Inductive event :=
  | StartTag (tag : string) (attrs : list (string * option string))
  | EndTag (tag : string)
  | Data (data : string).

(** The parser object.  [_attributes] is only set in ATTRIBUTE mode and
    [_name] only in TAG mode; the other field is never read.
    [_result] is in Python order ([append] adds at the end).
    [_elts] is held top first: [append tag] is [tag :: _], [pop ()]
    takes the head; [tag in _elts] and [not _elts] do not depend on the
    orientation. *)
Record ElementsBy := mkElementsBy {
  _filter_by : FilterBy;
  _attributes : gmap string (option string);
  _name : string;
  _result : list string;
  _inside : bool;
  _elts : list string
}.

(** [ElementsBy.__init__ (filter_by, name, value=None)] *)
Definition ElementsBy_init (filter_by : FilterBy) (name : string)
    (value : option string) : ElementsBy :=
  {| _filter_by := filter_by;
     _attributes := match filter_by with
                    | ATTRIBUTE => {[ name := value ]}
                    | TAG => ∅
                    end;
     _name := name;
     _result := [];
     _inside := false;
     _elts := [] |}.

(** [get_html]: [''.join(self._result)] *)
Definition get_html (p : ElementsBy) : string := join EmptyString (_result p).

(** [dict(attrs)]: a later pair overrides an earlier one with the same key. *)
Definition dict (attrs : list (string * option string)) : gmap string (option string) :=
  foldl (fun m kv => <[ kv.1 := kv.2 ]> m) ∅ attrs.

(** [ad.get(k, None)]: the value, [None] when the key is missing. *)
Definition dict_get (ad : gmap string (option string)) (k : string) : option string :=
  match ad !! k with
  | Some v => v
  | None => None
  end.

(** ['%s' % v] for a string or [None]. *)
Definition fmt_s (v : option string) : string :=
  match v with
  | Some s => s
  | None => "None"
  end.

(** ['<%s%s%s>' % (tag, ' ' if attrs else '',
                   ' '.join('%s="%s"' % (k, v) for k, v in attrs))] *)
Definition start_fragment (tag : string) (attrs : list (string * option string)) : string :=
  "<" +:+ tag +:+ (match attrs with [] => EmptyString | _ => " " end)
      +:+ join " " (map (fun kv => kv.1 +:+ "=" +:+ DQ +:+ fmt_s kv.2 +:+ DQ) attrs)
      +:+ ">".

(** ['</%s>' % (tag,)] *)
Definition end_fragment (tag : string) : string := "</" +:+ tag +:+ ">".

(** The condition under which [handle_starttag] sets [_inside]:
    [all(ad.get(k, None) == v for k, v in self._attributes.items())]
    in ATTRIBUTE mode, [tag == self._name] in TAG mode. *)
Definition criterion (p : ElementsBy) (tag : string)
    (attrs : list (string * option string)) : bool :=
  let ad := dict attrs in
  match _filter_by p with
  | ATTRIBUTE =>
      forallb (fun kv => bool_decide (dict_get ad kv.1 = kv.2))
              (map_to_list (_attributes p))
  | TAG => bool_decide (tag = _name p)
  end.

Definition handle_starttag (p : ElementsBy) (tag : string)
    (attrs : list (string * option string)) : ElementsBy :=
  let inside := if criterion p tag attrs then true else _inside p in
  if inside then
    {| _filter_by := _filter_by p; _attributes := _attributes p; _name := _name p;
       _result := _result p ++ [start_fragment tag attrs];
       _inside := true;
       _elts := tag :: _elts p |}
  else p.

(** The loop [while t != tag and self._elts: t = self._elts.pop()],
    entered with the element [t] popped last; returns the stack left. *)
Fixpoint pop_while (tag t : string) (elts : list string) {struct elts} : list string :=
  match elts with
  | [] => []
  | t' :: rest => if bool_decide (t = tag) then elts else pop_while tag t' rest
  end.

(** [t = self._elts.pop()] followed by the loop.  The guard [tag in
    self._elts] makes the stack non-empty, the empty case is unreachable. *)
Definition pop_to (tag : string) (elts : list string) : list string :=
  match elts with
  | [] => []
  | t :: rest => pop_while tag t rest
  end.

Definition handle_endtag (p : ElementsBy) (tag : string) : ElementsBy :=
  if _inside p then
    let elts := if bool_decide (tag ∈ _elts p) then pop_to tag (_elts p) else _elts p in
    {| _filter_by := _filter_by p; _attributes := _attributes p; _name := _name p;
       _result := _result p ++ [end_fragment tag];
       _inside := match elts with [] => false | _ => _inside p end;
       _elts := elts |}
  else p.

Definition handle_data (p : ElementsBy) (data : string) : ElementsBy :=
  if _inside p then
    {| _filter_by := _filter_by p; _attributes := _attributes p; _name := _name p;
       _result := _result p ++ [data];
       _inside := _inside p;
       _elts := _elts p |}
  else p.

(** One event of the tokenizer, dispatched to its handler. *)
Definition handle (p : ElementsBy) (e : event) : ElementsBy :=
  match e with
  | StartTag tag attrs => handle_starttag p tag attrs
  | EndTag tag => handle_endtag p tag
  | Data data => handle_data p data
  end.

(** [feed] on the event sequence of a document: the handlers run in
    document order on the same parser object. *)
Definition feed (p : ElementsBy) (events : list event) : ElementsBy :=
  foldl handle p events.

(** The end-tag rule in the words of the specification, for comparison
    with [handle_endtag]: the closing tag is appended, the stack is
    popped while the popped element differs from the name, until a
    matching opener is found or the stack empties, and an empty stack
    leaves the parser outside. *)
Definition spec_handle_endtag (p : ElementsBy) (tag : string) : ElementsBy :=
  if _inside p then
    let elts := pop_to tag (_elts p) in
    {| _filter_by := _filter_by p; _attributes := _attributes p; _name := _name p;
       _result := _result p ++ [end_fragment tag];
       _inside := match elts with [] => false | _ => _inside p end;
       _elts := elts |}
  else p.

(** What an event contributes to the output when it is captured. *)
Definition fragment (e : event) : string :=
  match e with
  | StartTag tag attrs => start_fragment tag attrs
  | EndTag tag => end_fragment tag
  | Data data => data
  end.

(** A run of events that is one captured subtree at depth 0 of a fresh
    parser [p]: its first event is a start tag satisfying the criterion,
    the parser is inside after every event but the last, and outside
    after the last. *)
Fixpoint inside_until_last (p : ElementsBy) (events : list event) : bool :=
  match events with
  | [] => false
  | e :: rest =>
      match rest with
      | [] => negb (_inside (handle p e))
      | _ => _inside (handle p e) && inside_until_last (handle p e) rest
      end
  end.

Definition top_level_subtree (p : ElementsBy) (events : list event) : bool :=
  match events with
  | StartTag tag attrs :: _ => criterion p tag attrs && inside_until_last p events
  | _ => false
  end.

(** Outside, the stack is empty. *)
Definition stack_inv (p : ElementsBy) : Prop := _inside p = false -> _elts p = [].

(** The output of a parser does not feed back into its handlers:
    fragments already collected stay in front. *)
Definition prepend (r : list string) (p : ElementsBy) : ElementsBy :=
  {| _filter_by := _filter_by p; _attributes := _attributes p; _name := _name p;
     _result := r ++ _result p; _inside := _inside p; _elts := _elts p |}.

(** The handlers never change the criterion. *)
Definition same_criterion (p q : ElementsBy) : Prop :=
  _filter_by q = _filter_by p ∧ _attributes q = _attributes p ∧ _name q = _name p.

(** Concrete documents used in the examples below: a parser for the
    tag [div] that has seen [<div>], and two paragraphs of class [x]. *)
Definition open_div : ElementsBy :=
  feed (ElementsBy_init TAG "div" None) [StartTag "div" []].

Definition paragraph (text : string) : list event :=
  [StartTag "p" [("class", Some "x")]; Data text; EndTag "p"].

(** ** Jobs and match strategies *)

(** The job of a filter instance: [job.to_dict()] and
    [job.get_location()]. *)
Record Job := mkJob {
  to_dict : gmap string string;
  get_location : string
}.

(** The processing state handed to a filter; only [state.job] is read. *)
Record State := mkState {
  job : Job
}.

(** [AutoMatchFilter.match], with the class attribute [MATCH] as an
    argument.  [d.get(k, None) == v] compares the looked-up value, or
    [None], with the string [v]. *)
Definition AutoMatchFilter_match (MATCH : option (gmap string string)) (j : Job) : bool :=
  match MATCH with
  | None => false
  | Some M =>
      let d := to_dict j in
      forallb (fun kv => bool_decide (d !! kv.1 = Some kv.2)) (map_to_list M)
  end.

Section RegexMatch.
(** Compiled regular expressions and [v.match(s)], [true] when the
    call returns a match object ([all] tests its truth value, and a
    match object is always true). *)
Context {pattern : Type} (pattern_match : pattern -> string -> bool).

(** [[v.match(d[k]) for k, v in self.MATCH.items() if k in d]] *)
Definition regex_matches (M : gmap string pattern) (d : gmap string string) : list bool :=
  flat_map (fun kv => match d !! kv.1 with
                      | Some x => [pattern_match kv.2 x]
                      | None => []
                      end)
           (map_to_list M).

(** [RegexMatchFilter.match] *)
Definition RegexMatchFilter_match (MATCH : option (gmap string pattern)) (j : Job) : bool :=
  match MATCH with
  | None => false
  | Some M =>
      let d := to_dict j in
      let matches := regex_matches M d in
      bool_decide (0 < length matches) && forallb (fun m => m) matches
  end.
End RegexMatch.

(** ** The dispatch engine: [FilterBase] *)

(** A filter class: what [filtercls(job, state).match()] and
    [filtercls(job, state).filter(data, subfilter)] compute. *)
Record FilterCls := mkFilterCls {
  cls_match : Job -> bool;
  cls_filter : Job -> string -> Subfilter -> result string
}.

(** The two class-level registries the metaclass fills: the dict of the
    classes with a kind and the list of those without. *)
Record FilterBase := mkFilterBase {
  __subclasses__ : gmap string FilterCls;
  __anonymous_subclasses__ : list FilterCls
}.

(** The order of [sorted(..., key=lambda k_v: k_v[0])] on the items of
    the dict: Python orders strings by code point, which on UTF-8 bytes
    is the bytewise lexicographic order of [String.leb]. *)
Definition key_le (a b : string * FilterCls) : Prop := String.leb a.1 b.1.

Global Instance key_le_dec a b : Decision (key_le a b).
Proof. unfold key_le. apply _. Defined.

(** The iterator [filters] of [auto_process]. *)
Definition filters (cls : FilterBase) : list FilterCls :=
  (snd <$> merge_sort key_le (map_to_list (__subclasses__ cls)))
  ++ __anonymous_subclasses__ cls.

(** The loop of [auto_process] over the filter classes left to visit;
    [filter_instance.filter(data)] leaves [subfilter] at its default. *)
Fixpoint auto_loop (fs : list FilterCls) (state : State) (data : string) : result string :=
  match fs with
  | [] => Ok data
  | filtercls :: rest =>
      if cls_match filtercls (job state) then
        let! data' := cls_filter filtercls (job state) data SNone in
        auto_loop rest state data'
      else auto_loop rest state data
  end.

Definition auto_process (cls : FilterBase) (state : State) (data : string) : result string :=
  auto_loop (filters cls) state data.

Definition process (cls : FilterBase) (filter_kind : string) (subfilter : Subfilter)
    (state : State) (data : string) : result string :=
  match __subclasses__ cls !! filter_kind with
  | None => Raise (UnknownFilterKind filter_kind subfilter)
  | Some filtercls => cls_filter filtercls (job state) data subfilter
  end.

(** [FilterBase._no_subfilters], with [self.__kind__] as an argument. *)
Definition _no_subfilters (kind : string) (subfilter : Subfilter) : result unit :=
  match subfilter with
  | SNone => Ok tt
  | _ => Raise (UnsupportedArgument kind)
  end.

(** ** The filter units *)

Section Units.
(** What the units take from the Python runtime and from the sibling
    modules of the package:
    - [splitlines]: [str.splitlines];
    - [re_search subfilter line]: whether [re.search(subfilter, line)]
      is not [None]; the call raises for an ill-formed expression;
    - [strip]: [str.strip];
    - [ical2text]: [ical2txt.ical2text], which may raise;
    - [sha1_hexdigest]: the hex digest of [hashlib.sha1] on the bytes. *)
Context (splitlines : string -> list string)
        (re_search : Subfilter -> string -> result bool)
        (strip : string -> string)
        (ical2text : string -> result string)
        (sha1_hexdigest : string -> string).

(** The generator [line for line in lines if keep (re.search(...))],
    consumed by [join]: the first call that raises ends it. *)
Fixpoint select_lines (keep : bool -> bool) (subfilter : Subfilter)
    (lines : list string) : result (list string) :=
  match lines with
  | [] => Ok []
  | line :: rest =>
      let! found := re_search subfilter line in
      let! kept := select_lines keep subfilter rest in
      Ok (if keep found then line :: kept else kept)
  end.

(** [GrepFilter.filter] *)
Definition GrepFilter_filter (data : string) (subfilter : Subfilter) : result string :=
  match subfilter with
  | SNone => Raise (MissingArgument "The grep filter needs a regular expression")
  | _ =>
      let! kept := select_lines (fun found => found) subfilter (splitlines data) in
      Ok (join LF kept)
  end.

(** [InverseGrepFilter.filter] *)
Definition InverseGrepFilter_filter (data : string) (subfilter : Subfilter) : result string :=
  match subfilter with
  | SNone => Raise (MissingArgument "The inverse grep filter needs a regular expression")
  | _ =>
      let! kept := select_lines negb subfilter (splitlines data) in
      Ok (join LF kept)
  end.

(** [StripFilter.filter] *)
Definition StripFilter_filter (data : string) (subfilter : Subfilter) : result string :=
  let! _u := _no_subfilters "strip" subfilter in
  Ok (strip data).

(** [Ical2TextFilter.filter] *)
Definition Ical2TextFilter_filter (data : string) (subfilter : Subfilter) : result string :=
  let! _u := _no_subfilters "ical2text" subfilter in
  ical2text data.

(** [Sha1Filter.filter] *)
Definition Sha1Filter_filter (data : string) (subfilter : Subfilter) : result string :=
  let! _u := _no_subfilters "sha1sum" subfilter in
  Ok (sha1_hexdigest data).
End Units.

(** ['%02x' % c] *)
Definition hex_digit (n : nat) : ascii :=
  nth n (list_ascii_of_string "0123456789abcdef") "0"%char.

Definition fmt_02x (c : ascii) : string :=
  let n := nat_of_ascii c in
  String (hex_digit (n / 16)) (String (hex_digit (n mod 16)) EmptyString).

(** [chr(c) if (c > 31 and c < 127) else '.'] *)
Definition printable (c : ascii) : ascii :=
  let n := nat_of_ascii c in
  if bool_decide (31 < n) && bool_decide (n < 127) then c else "."%char.

(** [[data[i * 16:(i + 1) * 16] for i in range(int((len(data) + (16 - 1)) / 16))]] *)
Definition blocks (data : list ascii) : list (list ascii) :=
  map (fun i => take 16 (drop (i * 16) data)) (seq 0 ((length data + (16 - 1)) / 16)).

(** [HexdumpFilter.filter]; the content is already held as its bytes. *)
Definition HexdumpFilter_filter (data : string) (subfilter : Subfilter) : result string :=
  let! _u := _no_subfilters "hexdump" subfilter in
  Ok (join LF (map (fun block =>
                      join " " (map fmt_02x block) +:+ "  "
                      +:+ string_of_list_ascii (map printable block))
                   (blocks (list_ascii_of_string data)))).

(** ** Filter classes as registry entries *)

(** [FilterBase.match], inherited by the classes that do not override it. *)
Definition FilterBase_match (j : Job) : bool := false.

(** [HexdumpFilter] as a class. *)
Definition HexdumpFilter : FilterCls :=
  mkFilterCls FilterBase_match (fun _ data subfilter => HexdumpFilter_filter data subfilter).

(** A subclass of [AutoMatchFilter] as a hooks file declares one: it
    sets [MATCH] and overrides [filter]. *)
Definition AutoMatchFilter_subclass (MATCH : gmap string string)
    (filter : string -> result string) : FilterCls :=
  mkFilterCls (AutoMatchFilter_match (Some MATCH)) (fun _ data _ => filter data).

(** A small registry for the examples: [hexdump] by name and one
    anonymous class that matches one location and marks the content. *)
Definition example_registry : FilterBase :=
  mkFilterBase
    {[ "hexdump" := HexdumpFilter ]}
    [AutoMatchFilter_subclass {[ "url" := "http://example.org/" ]}
       (fun data => Ok (data +:+ "!"))].

Definition example_state : State :=
  mkState (mkJob {[ "url" := "http://example.org/" ]} "http://example.org/").

(** ** Stand-ins for the Python runtime in the examples *)

(** [str.splitlines] on content whose only line boundary is the line
    feed. *)
Fixpoint splitlines_lf (s : string) : list string :=
  match s with
  | EmptyString => []
  | String c rest =>
      if Ascii.eqb c (ascii_of_nat 10) then EmptyString :: splitlines_lf rest
      else match splitlines_lf rest with
           | [] => [String c EmptyString]
           | line :: lines => String c line :: lines
           end
  end.

(** [re.search] for expressions without metacharacters: the expression
    is found where it occurs in the line; anything but a string is not an
    expression. *)
Definition re_search_literal (subfilter : Subfilter) (line : string) : result bool :=
  match subfilter with
  | SStr s => Ok (match String.index 0 s line with Some _ => true | None => false end)
  | _ => Raise (ExternalError "first argument must be string or compiled pattern")
  end.

(** ** [LegacyHooksPyFilter] *)




(** ** [Html2TextFilter] *)

Section Html2Text.
(** [html2txt.html2text(data, method=method, options=options)] *)
Context (html2text : string -> string -> gmap string string -> result string).

(** [Html2TextFilter.filter].  [subfilter.pop('method')] removes the
    entry from the dict object the caller passed, and raises a key error
    when there is none; the first component is that object after the
    call, the second what the call returns or raises. *)
Definition Html2TextFilter_filter (data : string) (subfilter : Subfilter)
    : Subfilter * result string :=
  match subfilter with
  | SNone => (SNone, html2text data "re" ∅)
  | SDict d =>
      match d !! "method" with
      | Some method =>
          let options := delete "method" d in
          (SDict options, html2text data method options)
      | None => (SDict d, Raise (ExternalError "KeyError: method"))
      end
  | SStr s => (SStr s, html2text data s ∅)
  end.
End Html2Text.

(** ** Vocabulary for the properties *)

(** The two outcomes of [re.search(...)] the line filters test for:
    [is not None] and [is None]. *)
Definition search_found (r : result bool) : bool :=
  match r with
  | Ok true => true
  | _ => false
  end.

Definition search_missed (r : result bool) : bool :=
  match r with
  | Ok false => true
  | _ => false
  end.



(** No start tag of the events satisfies the criterion of [p]. *)
Definition no_match (p : ElementsBy) (events : list event) : bool :=
  forallb (fun e => match e with
                    | StartTag tag attrs => negb (criterion p tag attrs)
                    | _ => true
                    end) events.

(** The events after the start tag of an element, [open] being the
    elements open so far, innermost first: every end tag closes the
    innermost open element, and the last event closes the outermost. *)
Fixpoint element_body (open : list string) (events : list event) : bool :=
  match events with
  | [] => false
  | StartTag tag _ :: rest => element_body (tag :: open) rest
  | Data _ :: rest => element_body open rest
  | EndTag tag :: rest =>
      match open with
      | [] => false
      | o :: open' =>
          bool_decide (o = tag)
          && match open' with
             | [] => match rest with [] => true | _ => false end
             | _ => element_body open' rest
             end
      end
  end.

(** The events of one well-nested element. *)
Definition element (events : list event) : bool :=
  match events with
  | StartTag tag _ :: rest => element_body [tag] rest
  | _ => false
  end.

(** The names of the start tags of the events, in document order. *)
Definition start_tags (events : list event) : list string :=
  omap (fun e => match e with StartTag tag _ => Some tag | _ => None end) events.

(** * Properties *)

(** ** Examples *)

Example extract_id :
  get_html (feed (ElementsBy_init ATTRIBUTE "id" (Some "x"))
    [StartTag "p" []; Data "before"; EndTag "p";
     StartTag "div" [("id", Some "x")]; Data "A"; StartTag "span" []; Data "B";
     EndTag "span"; EndTag "div"; StartTag "p" []; Data "after"; EndTag "p"])
  = "<div id=" +:+ DQ +:+ "x" +:+ DQ +:+ ">A<span>B</span></div>".
Proof. vm_compute. reflexivity. Qed.

Example hexdump_hello :
  HexdumpFilter_filter "Hello, urlwatch!!*" SNone
  = Ok ("48 65 6c 6c 6f 2c 20 75 72 6c 77 61 74 63 68 21  Hello, urlwatch!"
        +:+ LF +:+ "21 2a  !*").
Proof. vm_compute. reflexivity. Qed.

(** ** The element extractor *)

Section Extractor.
Implicit Types (p : ElementsBy) (e : event) (events : list event).

Lemma append_empty_r (x : string) : x +:+ EmptyString = x.
Proof.
  induction x as [|c x IH]; [done|].
  change (String c x +:+ EmptyString) with (String c (x +:+ EmptyString)).
  by rewrite IH.
Qed.

Lemma append_assoc (x y z : string) : (x +:+ y) +:+ z = x +:+ (y +:+ z).
Proof.
  induction x as [|c x IH]; [done|].
  change (String c (x +:+ y) +:+ z = String c (x +:+ (y +:+ z))).
  change (String c ((x +:+ y) +:+ z) = String c (x +:+ (y +:+ z))).
  by rewrite IH.
Qed.

Lemma join_empty_cons (x : string) (l : list string) :
  join EmptyString (x :: l) = x +:+ join EmptyString l.
Proof.
  unfold join. destruct l as [|y l]; [|done].
  simpl. by rewrite append_empty_r.
Qed.

Lemma join_empty_app (l1 l2 : list string) :
  join EmptyString (l1 ++ l2) = join EmptyString l1 +:+ join EmptyString l2.
Proof.
  induction l1 as [|x l1 IH]; [done|].
  rewrite <- app_comm_cons, !join_empty_cons, IH. by rewrite append_assoc.
Qed.

Lemma feed_app p events1 events2 :
  feed p (events1 ++ events2) = feed (feed p events1) events2.
Proof. apply foldl_app. Qed.

Lemma pop_while_found tag rest : pop_while tag tag rest = rest.
Proof. destruct rest; simpl; [done|]. by rewrite bool_decide_eq_true_2. Qed.

Lemma pop_while_skip tag t above below :
  t ≠ tag -> tag ∉ above ->
  pop_while tag t (above ++ tag :: below) = below.
Proof.
  revert t. induction above as [|a above IH]; intros t Ht Hnotin; simpl.
  - rewrite bool_decide_eq_false_2 by done. apply pop_while_found.
  - rewrite bool_decide_eq_false_2 by done.
    apply not_elem_of_cons in Hnotin as [Hne Hnotin]. apply IH; [congruence|done].
Qed.

Lemma pop_to_topmost tag above below :
  tag ∉ above -> pop_to tag (above ++ tag :: below) = below.
Proof.
  destruct above as [|a above]; intros Hnotin; simpl.
  - apply pop_while_found.
  - apply not_elem_of_cons in Hnotin as [Hne Hnotin].
    apply pop_while_skip; [congruence|done].
Qed.

Lemma handle_stack_inv p e : stack_inv p -> stack_inv (handle p e).
Proof.
  unfold stack_inv. intros Hinv.
  destruct e as [tag attrs|tag|data]; simpl.
  - unfold handle_starttag.
    destruct (criterion p tag attrs); simpl; [done|].
    destruct (_inside p) eqn:Hin; simpl; [done|auto].
  - unfold handle_endtag. destruct (_inside p) eqn:Hin; simpl; [|auto].
    destruct (if bool_decide (tag ∈ _elts p) then pop_to tag (_elts p) else _elts p);
      done.
  - unfold handle_data. destruct (_inside p) eqn:Hin; simpl; [done|auto].
Qed.

Lemma feed_stack_inv events p : stack_inv p -> stack_inv (feed p events).
Proof.
  revert p. induction events as [|e events IH]; intros p Hinv; [done|].
  simpl. apply IH, handle_stack_inv, Hinv.
Qed.

Lemma init_stack_inv filter_by name value :
  stack_inv (ElementsBy_init filter_by name value).
Proof. done. Qed.

(** Every handler appends nothing, or the fragment of its event. *)
Lemma handle_result p e :
  _result (handle p e) = _result p
  ∨ _result (handle p e) = _result p ++ [fragment e].
Proof.
  destruct e as [tag attrs|tag|data]; simpl.
  - unfold handle_starttag.
    destruct (if criterion p tag attrs then true else _inside p); simpl; auto.
  - unfold handle_endtag. destruct (_inside p); simpl; auto.
  - unfold handle_data. destruct (_inside p); simpl; auto.
Qed.

Lemma feed_result_sublist events p :
  ∃ frags, _result (feed p events) = _result p ++ frags
           ∧ frags `sublist_of` (fragment <$> events).
Proof.
  revert p. induction events as [|e events IH]; intros p; simpl.
  - exists []. by rewrite app_nil_r.
  - destruct (IH (handle p e)) as (frags & Hres & Hsub).
    destruct (handle_result p e) as [Heq|Heq]; rewrite Heq in Hres.
    + exists frags. split; [done|]. by apply sublist_cons.
    + exists (fragment e :: frags). split.
      * by rewrite Hres, <- app_assoc.
      * by apply sublist_skip.
Qed.
(** Inside, every handler appends the fragment of its event. *)
Lemma handle_result_inside p e :
  _inside p = true -> _result (handle p e) = _result p ++ [fragment e].
Proof.
  intros Hin. destruct e as [tag attrs|tag|data]; simpl.
  - unfold handle_starttag. rewrite Hin. by destruct (criterion p tag attrs).
  - unfold handle_endtag. by rewrite Hin.
  - unfold handle_data. by rewrite Hin.
Qed.

Lemma handle_starttag_match p tag attrs :
  criterion p tag attrs = true ->
  _inside (handle_starttag p tag attrs) = true
  ∧ _result (handle_starttag p tag attrs) = _result p ++ [start_fragment tag attrs].
Proof. intros Hc. unfold handle_starttag. by rewrite Hc. Qed.

Lemma handle_prepend r p e : handle (prepend r p) e = prepend r (handle p e).
Proof.
  destruct e as [tag attrs|tag|data]; simpl.
  - unfold handle_starttag, criterion; simpl.
    destruct (match _filter_by p with ATTRIBUTE => _ | TAG => _ end);
      [|destruct (_inside p)]; unfold prepend; simpl; by rewrite ?app_assoc.
  - unfold handle_endtag; simpl.
    destruct (_inside p); unfold prepend; simpl; by rewrite ?app_assoc.
  - unfold handle_data; simpl.
    destruct (_inside p); unfold prepend; simpl; by rewrite ?app_assoc.
Qed.

Lemma feed_prepend r events p : feed (prepend r p) events = prepend r (feed p events).
Proof.
  revert p. induction events as [|e events IH]; intros p; [done|].
  simpl. by rewrite handle_prepend, IH.
Qed.

Lemma handle_same_criterion p e : same_criterion p (handle p e).
Proof.
  destruct e as [tag attrs|tag|data]; simpl.
  - unfold handle_starttag.
    by destruct (if criterion p tag attrs then true else _inside p).
  - unfold handle_endtag. by destruct (_inside p).
  - unfold handle_data. by destruct (_inside p).
Qed.

Lemma feed_same_criterion events p : same_criterion p (feed p events).
Proof.
  revert p. induction events as [|e events IH]; intros p; [done|].
  simpl. destruct (IH (handle p e)) as (H1 & H2 & H3).
  destruct (handle_same_criterion p e) as (H4 & H5 & H6).
  repeat split; congruence.
Qed.

(** A parser that is outside again is the fresh parser with the
    fragments collected so far in front. *)
Lemma feed_outside_prepend filter_by name value events :
  _inside (feed (ElementsBy_init filter_by name value) events) = false ->
  feed (ElementsBy_init filter_by name value) events
  = prepend (_result (feed (ElementsBy_init filter_by name value) events))
            (ElementsBy_init filter_by name value).
Proof.
  intros Hout.
  pose proof (feed_stack_inv events _ (init_stack_inv filter_by name value) Hout) as Helts.
  destruct (feed_same_criterion events (ElementsBy_init filter_by name value))
    as (H1 & H2 & H3).
  destruct (feed (ElementsBy_init filter_by name value) events) as [fb at_ nm r i el].
  unfold prepend; simpl in *. subst. by rewrite app_nil_r.
Qed.

(** Once the parser is outside, what follows is extracted as from a
    fresh parser and appended. *)
Lemma get_html_app_outside filter_by name value events1 events2 :
  _inside (feed (ElementsBy_init filter_by name value) events1) = false ->
  get_html (feed (ElementsBy_init filter_by name value) (events1 ++ events2))
  = get_html (feed (ElementsBy_init filter_by name value) events1)
    +:+ get_html (feed (ElementsBy_init filter_by name value) events2).
Proof.
  intros Hout. rewrite feed_app, (feed_outside_prepend _ _ _ _ Hout), feed_prepend.
  unfold get_html, prepend; simpl. by rewrite app_nil_r, join_empty_app.
Qed.

Lemma inside_until_last_outside events p :
  inside_until_last p events = true -> _inside (feed p events) = false.
Proof.
  revert p. induction events as [|e events IH]; intros p H; [done|].
  simpl in *. destruct events as [|e' events].
  - simpl. by apply negb_true_iff.
  - apply andb_true_iff in H as [_ H]. by apply IH.
Qed.

Lemma inside_until_last_result events p :
  _inside p = true -> inside_until_last p events = true ->
  _result (feed p events) = _result p ++ (fragment <$> events).
Proof.
  revert p. induction events as [|e events IH]; intros p Hin H.
  - by rewrite app_nil_r.
  - simpl in H. change (feed p (e :: events)) with (feed (handle p e) events).
    destruct events as [|e' events].
    + simpl. by apply handle_result_inside.
    + apply andb_true_iff in H as [Hin' H].
      rewrite (IH _ Hin' H), (handle_result_inside _ _ Hin).
      by rewrite <- app_assoc.
Qed.

(** A captured subtree at depth 0 is extracted in full and leaves the
    parser outside. *)
Lemma top_level_subtree_captured filter_by name value events :
  top_level_subtree (ElementsBy_init filter_by name value) events = true ->
  _inside (feed (ElementsBy_init filter_by name value) events) = false
  ∧ _result (feed (ElementsBy_init filter_by name value) events) = fragment <$> events.
Proof.
  set (p := ElementsBy_init filter_by name value).
  destruct events as [|[tag attrs|tag|data] events]; try done.
  unfold top_level_subtree. intros [Hc H]%andb_true_iff.
  split; [by apply inside_until_last_outside|].
  simpl in H. change (feed p (StartTag tag attrs :: events))
    with (feed (handle_starttag p tag attrs) events).
  destruct (handle_starttag_match p tag attrs Hc) as [Hin Hres].
  destruct events as [|e' events].
  - simpl in H. rewrite Hin in H. done.
  - apply andb_true_iff in H as [_ H].
    rewrite (inside_until_last_result _ _ Hin H), Hres. done.
Qed.
(** C1, as the specification words it, fails: a closing tag whose name
    is not on the stack pops nothing.  After [<div>], the stray [</span>]
    leaves [div] on the stack and the parser inside, where the rule of
    the specification empties the stack and leaves the capture. *)
Lemma C1_stray_endtag_pops_nothing :
  _inside open_div = true
  ∧ _elts (handle_endtag open_div "span") = ["div"]
  ∧ _inside (handle_endtag open_div "span") = true
  ∧ _elts (spec_handle_endtag open_div "span") = []
  ∧ _inside (spec_handle_endtag open_div "span") = false
  ∧ handle_endtag open_div "span" ≠ spec_handle_endtag open_div "span".
Proof. repeat split; try reflexivity. intros H. by apply (f_equal _inside) in H. Qed.

(** C1 (amended): when [endTag(name)] arrives while the parser is
    inside, the serialized closing tag is appended to the output; if
    [name] is on the stack, the entries above its topmost occurrence and
    that occurrence are popped, and if it is not, the stack is left as it
    is; the parser is outside afterwards exactly when the stack is empty. *)
Theorem C1_endtag_pops_to_topmost_opener p tag :
  _inside p = true ->
  _result (handle_endtag p tag) = _result p ++ [end_fragment tag]
  ∧ (tag ∉ _elts p -> _elts (handle_endtag p tag) = _elts p)
  ∧ (∀ above below, _elts p = above ++ tag :: below -> tag ∉ above ->
       _elts (handle_endtag p tag) = below)
  ∧ (_inside (handle_endtag p tag) = false <-> _elts (handle_endtag p tag) = []).
Proof.
  intros Hin. unfold handle_endtag. rewrite Hin. simpl. repeat split.
  - intros Hnotin. by rewrite bool_decide_eq_false_2.
  - intros above below Helts Hnotin.
    rewrite bool_decide_eq_true_2 by (rewrite Helts; set_solver).
    rewrite Helts. by apply pop_to_topmost.
  - by destruct (if bool_decide _ then _ else _).
  - by intros ->.
Qed.

Lemma C1_endtag_pops_to_topmost_opener_witness :
  _inside open_div = true
  ∧ _result (handle_endtag open_div "div") = _result open_div ++ [end_fragment "div"]
  ∧ _elts (handle_endtag open_div "div") = []
  ∧ _inside (handle_endtag open_div "div") = false.
Proof.
  destruct (C1_endtag_pops_to_topmost_opener open_div "div" eq_refl)
    as (Hres & _ & Hpop & Hout).
  pose proof (Hpop [] [] eq_refl (not_elem_of_nil _)) as Helts.
  split; [reflexivity|]. split; [exact Hres|]. split; [exact Helts|].
  apply Hout, Helts.
Defined.

(** C2, as the specification words it, fails: a second subtree at depth
    0 that satisfies the criterion is captured as well. *)
Lemma C2_second_match_is_captured :
  top_level_subtree (ElementsBy_init ATTRIBUTE "class" (Some "x")) (paragraph "A") = true
  ∧ top_level_subtree (ElementsBy_init ATTRIBUTE "class" (Some "x")) (paragraph "B") = true
  ∧ get_html (feed (ElementsBy_init ATTRIBUTE "class" (Some "x"))
                   (paragraph "A" ++ paragraph "B"))
    = "<p class=" +:+ DQ +:+ "x" +:+ DQ +:+ ">A</p><p class=" +:+ DQ +:+ "x" +:+ DQ +:+ ">B</p>"
  ∧ get_html (feed (ElementsBy_init ATTRIBUTE "class" (Some "x"))
                   (paragraph "A" ++ paragraph "B"))
    ≠ get_html (feed (ElementsBy_init ATTRIBUTE "class" (Some "x")) (paragraph "A")).
Proof. repeat split; try (vm_compute; reflexivity). vm_compute. discriminate. Qed.

(** C2 (amended): within one extraction pass every subtree at depth 0
    whose opening tag satisfies the criterion is captured; after a
    subtree closes and the parser is outside again, a later top-level tag
    that satisfies the criterion reopens the capture, so for a stream of
    two disjoint matching top-level subtrees the result is the first
    subtree followed by the second, each in full. *)
Theorem C2_every_top_level_match_is_captured filter_by name value events1 events2 :
  top_level_subtree (ElementsBy_init filter_by name value) events1 = true ->
  top_level_subtree (ElementsBy_init filter_by name value) events2 = true ->
  get_html (feed (ElementsBy_init filter_by name value) (events1 ++ events2))
  = join EmptyString (fragment <$> events1) +:+ join EmptyString (fragment <$> events2).
Proof.
  intros [Hout1 Hres1]%top_level_subtree_captured [_ Hres2]%top_level_subtree_captured.
  rewrite get_html_app_outside by done. unfold get_html. by rewrite Hres1, Hres2.
Qed.

Lemma C2_every_top_level_match_is_captured_witness :
  get_html (feed (ElementsBy_init ATTRIBUTE "class" (Some "x"))
                 (paragraph "A" ++ paragraph "B"))
  = join EmptyString (fragment <$> paragraph "A")
    +:+ join EmptyString (fragment <$> paragraph "B").
Proof.
  apply (C2_every_top_level_match_is_captured ATTRIBUTE "class" (Some "x")
           (paragraph "A") (paragraph "B")); vm_compute; reflexivity.
Defined.

(** C7: extraction is a total function of the event stream and returns
    the fragments accumulated so far, whatever the state at the end of
    the stream: the result of a stream is the beginning of the result of
    any longer stream.  In particular [startTag(div), text("A")] with a
    criterion that the tag satisfies ends inside and yields [<div>A]. *)
Theorem C7_unterminated_extraction_returns_output :
  (∀ p events1 events2, ∃ rest,
     get_html (feed p (events1 ++ events2)) = get_html (feed p events1) +:+ rest)
  ∧ (∀ filter_by name value,
       criterion (ElementsBy_init filter_by name value) "div" [] = true ->
       _inside (feed (ElementsBy_init filter_by name value)
                     [StartTag "div" []; Data "A"]) = true
       ∧ get_html (feed (ElementsBy_init filter_by name value)
                        [StartTag "div" []; Data "A"]) = "<div>A").
Proof.
  split.
  - intros p events1 events2. rewrite feed_app.
    destruct (feed_result_sublist events2 (feed p events1)) as (frags & Hres & _).
    exists (join EmptyString frags). unfold get_html. by rewrite Hres, join_empty_app.
  - intros filter_by name value Hc. simpl. unfold handle_starttag. rewrite Hc. done.
Qed.

Lemma C7_unterminated_extraction_returns_output_witness :
  _inside (feed (ElementsBy_init TAG "div" None) [StartTag "div" []; Data "A"]) = true
  ∧ get_html (feed (ElementsBy_init TAG "div" None) [StartTag "div" []; Data "A"])
    = "<div>A".
Proof.
  apply (proj2 C7_unterminated_extraction_returns_output TAG "div" None).
  vm_compute. reflexivity.
Defined.

(** C9: after any stream of events the tag stack is empty whenever the
    parser is outside (it is non-empty only while the parser is inside);
    every handler leaves the output as it is or appends the fragment of
    its event at the end, so the output is a subsequence, in document
    order, of the fragments of the events. *)
Theorem C9_extraction_state_invariant filter_by name value events :
  (_inside (feed (ElementsBy_init filter_by name value) events) = false ->
   _elts (feed (ElementsBy_init filter_by name value) events) = [])
  ∧ (_elts (feed (ElementsBy_init filter_by name value) events) ≠ [] ->
     _inside (feed (ElementsBy_init filter_by name value) events) = true)
  ∧ (∀ e, _result (feed (ElementsBy_init filter_by name value) (events ++ [e]))
          = _result (feed (ElementsBy_init filter_by name value) events)
          ∨ _result (feed (ElementsBy_init filter_by name value) (events ++ [e]))
            = _result (feed (ElementsBy_init filter_by name value) events) ++ [fragment e])
  ∧ _result (feed (ElementsBy_init filter_by name value) events)
    `sublist_of` (fragment <$> events).
Proof.
  pose proof (feed_stack_inv events _ (init_stack_inv filter_by name value)) as Hinv.
  repeat split.
  - exact Hinv.
  - intros Hne. destruct (_inside _) eqn:Hin; [done|]. by destruct Hne; apply Hinv.
  - intros e. rewrite feed_app. apply handle_result.
  - destruct (feed_result_sublist events (ElementsBy_init filter_by name value))
      as (frags & Hres & Hsub). by rewrite Hres.
Qed.

Lemma C9_extraction_state_invariant_witness :
  _elts (feed (ElementsBy_init TAG "div" None)
              [StartTag "div" []; Data "A"; EndTag "div"; Data "B"]) = [].
Proof.
  apply (proj1 (C9_extraction_state_invariant TAG "div" None
                  [StartTag "div" []; Data "A"; EndTag "div"; Data "B"])).
  vm_compute. reflexivity.
Defined.
End Extractor.

(** ** The match strategies *)

Section Match.
Implicit Types (j : Job) (C : gmap string string).

Lemma AutoMatchFilter_match_spec C j :
  AutoMatchFilter_match (Some C) j = true
  <-> ∀ k v, C !! k = Some v -> to_dict j !! k = Some v.
Proof.
  unfold AutoMatchFilter_match. rewrite forallb_forall. split.
  - intros H k v Hkv.
    specialize (H (k, v)). simpl in H. eapply bool_decide_eq_true_1, H.
    by apply list_elem_of_In, elem_of_map_to_list.
  - intros H [k v] Hin. simpl. apply bool_decide_eq_true_2, H.
    by apply elem_of_map_to_list, list_elem_of_In.
Qed.

Lemma AutoMatchFilter_match_missing C j k :
  is_Some (C !! k) -> to_dict j !! k = None ->
  AutoMatchFilter_match (Some C) j = false.
Proof.
  intros [v Hv] Hnone. apply not_true_is_false. intros H.
  rewrite AutoMatchFilter_match_spec in H. specialize (H k v Hv). congruence.
Qed.

(** C4: Attribute-Equality matching is true iff every key of the
    criterion is present in the descriptor with an equal value; a key of
    the criterion missing from the descriptor makes it false, and
    removing the entry of a required key from a matching descriptor
    makes it false. *)
Theorem C4_attribute_equality_match C j :
  (AutoMatchFilter_match (Some C) j = true
   <-> ∀ k v, C !! k = Some v -> to_dict j !! k = Some v)
  ∧ (∀ k, is_Some (C !! k) -> to_dict j !! k = None ->
       AutoMatchFilter_match (Some C) j = false)
  ∧ (∀ k, is_Some (C !! k) -> AutoMatchFilter_match (Some C) j = true ->
       AutoMatchFilter_match (Some C) (mkJob (delete k (to_dict j)) (get_location j))
       = false).
Proof.
  split; [apply AutoMatchFilter_match_spec|]. split.
  - intros k. apply AutoMatchFilter_match_missing.
  - intros k Hk _. apply (AutoMatchFilter_match_missing _ _ k Hk).
    simpl. apply lookup_delete_eq.
Qed.

Lemma C4_attribute_equality_match_witness :
  AutoMatchFilter_match (Some {[ "url" := "http://example.org/" ]})
    (mkJob {[ "url" := "http://example.org/"; "name" := "example" ]} "http://example.org/")
  = true
  ∧ AutoMatchFilter_match (Some {[ "url" := "http://example.org/" ]})
      (mkJob (delete "url" {[ "url" := "http://example.org/"; "name" := "example" ]})
             "http://example.org/")
    = false.
Proof.
  assert (is_Some (({[ "url" := "http://example.org/" ]} : gmap string string) !! "url"))
    as Hkey by (exists "http://example.org/"; vm_compute; reflexivity).
  split; [vm_compute; reflexivity|].
  exact (proj2 (proj2 (C4_attribute_equality_match
           {[ "url" := "http://example.org/" ]}
           (mkJob {[ "url" := "http://example.org/"; "name" := "example" ]}
                  "http://example.org/"))) "url" Hkey eq_refl).
Defined.

Section Regex.
Context {pattern : Type} (pattern_match : pattern -> string -> bool).
Implicit Types (R : gmap string pattern) (d : gmap string string).

Lemma elem_of_regex_matches R d b :
  b ∈ regex_matches pattern_match R d
  <-> ∃ k pat x, R !! k = Some pat ∧ d !! k = Some x ∧ b = pattern_match pat x.
Proof.
  unfold regex_matches. rewrite list_elem_of_In, in_flat_map. split.
  - intros ([k pat] & Hin & Hb). simpl in Hb.
    apply list_elem_of_In, elem_of_map_to_list in Hin.
    destruct (d !! k) as [x|] eqn:Hd; [|by destruct Hb].
    destruct Hb as [<-|[]]. by exists k, pat, x.
  - intros (k & pat & x & HR & Hd & ->). exists (k, pat). split.
    + by apply list_elem_of_In, elem_of_map_to_list.
    + simpl. rewrite Hd. by left.
Qed.

Lemma RegexMatchFilter_match_spec R j :
  RegexMatchFilter_match pattern_match (Some R) j = true
  <-> (∃ k, is_Some (R !! k) ∧ is_Some (to_dict j !! k))
      ∧ (∀ k pat x, R !! k = Some pat -> to_dict j !! k = Some x ->
           pattern_match pat x = true).
Proof.
  unfold RegexMatchFilter_match.
  rewrite andb_true_iff, forallb_forall. split.
  - intros [Hlen%bool_decide_eq_true_1 Hall]. split.
    + destruct (regex_matches pattern_match R (to_dict j)) as [|b l] eqn:Hl;
        [simpl in Hlen; lia|].
      assert (b ∈ regex_matches pattern_match R (to_dict j)) as Hb
        by (rewrite Hl; left).
      apply elem_of_regex_matches in Hb as (k & pat & x & HR & Hd & _).
      exists k. eauto.
    + intros k pat x HR Hd. apply Hall, list_elem_of_In, elem_of_regex_matches.
      by exists k, pat, x.
  - intros [(k & [pat HR] & [x Hd]) Hall]. split.
    + assert (pattern_match pat x ∈ regex_matches pattern_match R (to_dict j)) as Hb
        by (apply elem_of_regex_matches; by exists k, pat, x).
      apply bool_decide_eq_true_2. destruct Hb; simpl; lia.
    + intros b (k' & pat' & x' & HR' & Hd' & ->)%list_elem_of_In%elem_of_regex_matches.
      by apply (Hall k').
Qed.

(** C3: Regex-Set matching is true iff some key of the criterion is
    present in the descriptor and the pattern of every present key
    matches its value; keys absent from the descriptor are skipped.  So
    the result is false when no key of the criterion is present, and
    false when the pattern of one present key fails, whatever other keys
    are absent. *)
Theorem C3_regex_set_match R j :
  (RegexMatchFilter_match pattern_match (Some R) j = true
   <-> (∃ k, is_Some (R !! k) ∧ is_Some (to_dict j !! k))
       ∧ (∀ k pat x, R !! k = Some pat -> to_dict j !! k = Some x ->
            pattern_match pat x = true))
  ∧ ((∀ k, is_Some (R !! k) -> to_dict j !! k = None) ->
     RegexMatchFilter_match pattern_match (Some R) j = false)
  ∧ (∀ k pat x, R !! k = Some pat -> to_dict j !! k = Some x ->
       pattern_match pat x = false ->
       RegexMatchFilter_match pattern_match (Some R) j = false).
Proof.
  split; [apply RegexMatchFilter_match_spec|]. split.
  - intros Habsent. apply not_true_is_false.
    intros [(k & HR & [x Hd]) _]%RegexMatchFilter_match_spec.
    specialize (Habsent k HR). congruence.
  - intros k pat x HR Hd Hfail. apply not_true_is_false.
    intros [_ Hall]%RegexMatchFilter_match_spec.
    specialize (Hall k pat x HR Hd). congruence.
Qed.
End Regex.

(** A stand-in for compiled patterns in the example below: a pattern
    matches the strings it is a prefix of. *)
Lemma C3_regex_set_match_witness :
  RegexMatchFilter_match String.prefix
    (Some {[ "url" := "https://"; "user" := "admin" ]})
    (mkJob {[ "url" := "http://example.org/" ]} "http://example.org/")
  = false.
Proof.
  apply (proj2 (proj2 (C3_regex_set_match String.prefix
           {[ "url" := "https://"; "user" := "admin" ]}
           (mkJob {[ "url" := "http://example.org/" ]} "http://example.org/")))
         "url" "https://" "http://example.org/");
    vm_compute; reflexivity.
Defined.
End Match.

(** ** The order of kind names *)

Section StringOrder.

Lemma ascii_compare_lt_trans (a b c : ascii) :
  Ascii.compare a b = Lt -> Ascii.compare b c = Lt -> Ascii.compare a c = Lt.
Proof. unfold Ascii.compare. rewrite !N.compare_lt_iff. lia. Qed.

Lemma string_compare_cons (a b : ascii) (s t : string) :
  String.compare (String a s) (String b t)
  = match Ascii.compare a b with
    | Eq => String.compare s t
    | Lt => Lt
    | Gt => Gt
    end.
Proof. done. Qed.

Lemma string_compare_lt_trans (s t u : string) :
  String.compare s t = Lt -> String.compare t u = Lt -> String.compare s u = Lt.
Proof.
  revert t u. induction s as [|a s IH]; intros [|b t] [|c u]; try done.
  rewrite !string_compare_cons.
  destruct (Ascii.compare a b) eqn:Hab; [|clear IH|done];
    (destruct (Ascii.compare b c) eqn:Hbc; [| |done]).
  - apply Ascii.compare_eq_iff in Hab, Hbc. subst.
    replace (Ascii.compare c c) with Eq
      by (symmetry; unfold Ascii.compare; apply N.compare_refl).
    apply IH.
  - apply Ascii.compare_eq_iff in Hab. subst. by rewrite Hbc.
  - apply Ascii.compare_eq_iff in Hbc. subst. by rewrite Hab.
  - by rewrite (ascii_compare_lt_trans _ _ _ Hab Hbc).
Qed.

Lemma string_leb_trans (s t u : string) :
  String.leb s t -> String.leb t u -> String.leb s u.
Proof.
  unfold String.leb.
  destruct (String.compare s t) eqn:Hst; [| |done]; intros _.
  - apply String.compare_eq_iff in Hst. by subst.
  - destruct (String.compare t u) eqn:Htu; [| |done]; intros _.
    + apply String.compare_eq_iff in Htu. subst. by rewrite Hst.
    + by rewrite (string_compare_lt_trans _ _ _ Hst Htu).
Qed.

Lemma string_leb_ne_ltb (s t : string) :
  String.leb s t -> s ≠ t -> String.ltb s t.
Proof.
  unfold String.leb, String.ltb.
  destruct (String.compare s t) eqn:Hst; try done.
  apply String.compare_eq_iff in Hst. done.
Qed.

Global Instance key_le_trans : Transitive key_le.
Proof. intros a b c. apply string_leb_trans. Qed.

Global Instance key_le_total : Total key_le.
Proof.
  intros a b. unfold key_le.
  destruct (String.leb_total a.1 b.1) as [H|H]; rewrite H; [by left|by right].
Qed.

End StringOrder.

(** ** The dispatch engine *)

Section Dispatch.
Implicit Types (cls : FilterBase) (state : State) (f : FilterCls) (fs : list FilterCls).

(** The named part of the iterator of [auto_process]. *)
Lemma sorted_items_perm cls :
  merge_sort key_le (map_to_list (__subclasses__ cls)) ≡ₚ map_to_list (__subclasses__ cls).
Proof. apply merge_sort_Permutation. Qed.

Lemma sorted_items_strict (l : list (string * FilterCls)) :
  StronglySorted key_le l -> NoDup l.*1 ->
  StronglySorted (fun a b => String.ltb a.1 b.1) l.
Proof.
  induction 1 as [|a l Hsorted IH Hall]; intros Hnodup; [constructor|].
  rewrite fmap_cons in Hnodup. apply NoDup_cons in Hnodup as [Hfresh Hnodup].
  constructor; [by apply IH|].
  rewrite Forall_forall in Hall |- *. intros b Hb.
  apply string_leb_ne_ltb; [by apply Hall|].
  intros Heq. apply Hfresh. rewrite Heq. by apply list_elem_of_fmap_2.
Qed.

Lemma elem_of_filters cls f :
  f ∈ filters cls
  <-> (∃ kind, __subclasses__ cls !! kind = Some f) ∨ f ∈ __anonymous_subclasses__ cls.
Proof.
  unfold filters. rewrite elem_of_app, list_elem_of_fmap.
  apply or_iff_compat_r. split.
  - intros ([kind f'] & -> & Hin). rewrite sorted_items_perm in Hin.
    apply elem_of_map_to_list in Hin. by exists kind.
  - intros [kind Hkind]. exists (kind, f). split; [done|].
    rewrite sorted_items_perm. by apply elem_of_map_to_list.
Qed.

Lemma auto_loop_app fs1 fs2 state data :
  auto_loop (fs1 ++ fs2) state data
  = let! data' := auto_loop fs1 state data in auto_loop fs2 state data'.
Proof.
  revert data. induction fs1 as [|f fs1 IH]; intros data; [done|].
  simpl. destruct (cls_match f (job state)); [|apply IH].
  destruct (cls_filter f (job state) data SNone) as [data'|e]; simpl; [apply IH|done].
Qed.

(** An exception out of the loop was raised by the [filter] of a class
    in the list whose [match] is true. *)
Lemma auto_loop_raise fs state data e :
  auto_loop fs state data = Raise e ->
  ∃ f data', f ∈ fs ∧ cls_match f (job state) = true
             ∧ cls_filter f (job state) data' SNone = Raise e.
Proof.
  revert data. induction fs as [|f fs IH]; intros data; [done|].
  simpl. destruct (cls_match f (job state)) eqn:Hm.
  - destruct (cls_filter f (job state) data SNone) as [data'|e'] eqn:Hf; simpl.
    + intros (g & d & Hg & Hgm & Hgf)%IH. exists g, d. split; [by right|done].
    + intros [= ->]. exists f, data. split; [by left|done].
  - intros (g & d & Hg & Hgm & Hgf)%IH. exists g, d. split; [by right|done].
Qed.

(** C5: [auto_process] visits the classes with a kind in strictly
    increasing order of kind name, each registered class once, and then
    the anonymous classes in registration order; it is a left-to-right
    fold: a class at any place of that order is handed the content the
    classes before it have produced, and replaces it by the output of its
    [filter] when its [match] is true.  The result is a function of the
    registry, the job and the content. *)
Theorem C5_auto_process_is_ordered_fold cls state data :
  (∃ named,
     filters cls = named.*2 ++ __anonymous_subclasses__ cls
     ∧ (∀ kind f, (kind, f) ∈ named <-> __subclasses__ cls !! kind = Some f)
     ∧ StronglySorted (fun a b => String.ltb a.1 b.1) named)
  ∧ (∀ before f after, filters cls = before ++ f :: after ->
       auto_process cls state data
       = let! seen := auto_loop before state data in
         let! out := (if cls_match f (job state)
                      then cls_filter f (job state) seen SNone
                      else Ok seen) in
         auto_loop after state out)
  ∧ (∀ r1 r2, auto_process cls state data = r1 ->
              auto_process cls state data = r2 -> r1 = r2).
Proof.
  split; [|split].
  - exists (merge_sort key_le (map_to_list (__subclasses__ cls))).
    split; [done|]. split.
    + intros kind f. rewrite sorted_items_perm. apply elem_of_map_to_list.
    + apply sorted_items_strict; [apply StronglySorted_merge_sort; apply _|].
      rewrite sorted_items_perm. apply NoDup_fst_map_to_list.
  - intros before f after Hfs. unfold auto_process. rewrite Hfs, auto_loop_app.
    destruct (auto_loop before state data) as [seen|e]; [|done].
    simpl. destruct (cls_match f (job state)); [|done].
    by destruct (cls_filter f (job state) seen SNone).
  - congruence.
Qed.

(** C6: [process] with a kind that is not registered raises the unknown
    kind error, whatever the registered classes and the content are: no
    [filter] takes part in the result.  [auto_process] only raises what
    the [filter] of a registered class whose [match] is true raises, so it
    raises no unknown kind error unless such a [filter] does. *)
Theorem C6_unknown_kind_is_rejected cls state :
  (∀ filter_kind subfilter data,
     __subclasses__ cls !! filter_kind = None ->
     process cls filter_kind subfilter state data
     = Raise (UnknownFilterKind filter_kind subfilter))
  ∧ (∀ data e, auto_process cls state data = Raise e ->
       ∃ f data',
         ((∃ kind, __subclasses__ cls !! kind = Some f)
          ∨ f ∈ __anonymous_subclasses__ cls)
         ∧ cls_match f (job state) = true
         ∧ cls_filter f (job state) data' SNone = Raise e)
  ∧ ((∀ f data' kind subfilter, f ∈ filters cls ->
        cls_filter f (job state) data' SNone ≠ Raise (UnknownFilterKind kind subfilter)) ->
     ∀ data kind subfilter,
       auto_process cls state data ≠ Raise (UnknownFilterKind kind subfilter)).
Proof.
  split; [|split].
  - intros filter_kind subfilter data Hnone. unfold process. by rewrite Hnone.
  - intros data e (f & data' & Hf & Hm & He)%auto_loop_raise.
    exists f, data'. by rewrite <- elem_of_filters.
  - intros Hunits data kind subfilter (f & data' & Hf & _ & He)%auto_loop_raise.
    by apply (Hunits f data' kind subfilter).
Qed.
Lemma C5_auto_process_is_ordered_fold_witness :
  auto_process example_registry example_state "A" = Ok "A!".
Proof.
  rewrite (proj1 (proj2 (C5_auto_process_is_ordered_fold example_registry example_state "A"))
             [HexdumpFilter]
             (AutoMatchFilter_subclass {[ "url" := "http://example.org/" ]}
                (fun data => Ok (data +:+ "!")))
             []).
  - vm_compute. reflexivity.
  - vm_compute. reflexivity.
Defined.

Lemma C6_unknown_kind_is_rejected_witness :
  process example_registry "nonexistent" (SStr "x") example_state "A"
  = Raise (UnknownFilterKind "nonexistent" (SStr "x")).
Proof.
  apply (proj1 (C6_unknown_kind_is_rejected example_registry example_state)).
  vm_compute. reflexivity.
Defined.
End Dispatch.

(** ** The filter units *)

Section UnitProperties.
Context (splitlines : string -> list string)
        (re_search : Subfilter -> string -> result bool)
        (strip : string -> string)
        (ical2text : string -> result string)
        (sha1_hexdigest : string -> string).

(** C8: the units that call [_no_subfilters] (strip, ical2text, sha1sum
    and hexdump) raise the unsupported argument error for every subfilter
    other than [None], a string or a dict alike; with [None] the check
    passes and the unit returns what its transform returns. *)
Theorem C8_no_subfilter_units data :
  (∀ subfilter, subfilter ≠ SNone ->
     StripFilter_filter strip data subfilter = Raise (UnsupportedArgument "strip")
     ∧ Ical2TextFilter_filter ical2text data subfilter
       = Raise (UnsupportedArgument "ical2text")
     ∧ Sha1Filter_filter sha1_hexdigest data subfilter
       = Raise (UnsupportedArgument "sha1sum")
     ∧ HexdumpFilter_filter data subfilter = Raise (UnsupportedArgument "hexdump"))
  ∧ (∀ kind, _no_subfilters kind SNone = Ok tt)
  ∧ StripFilter_filter strip data SNone = Ok (strip data)
  ∧ Ical2TextFilter_filter ical2text data SNone = ical2text data
  ∧ Sha1Filter_filter sha1_hexdigest data SNone = Ok (sha1_hexdigest data)
  ∧ (∃ dump, HexdumpFilter_filter data SNone = Ok dump).
Proof.
  split.
  - intros [|s|d] Hsome; done.
  - do 4 (split; [done|]). by eexists.
Qed.

Lemma select_lines_sublist keep subfilter lines kept :
  select_lines re_search keep subfilter lines = Ok kept ->
  kept `sublist_of` lines
  ∧ (∀ line, line ∈ kept ->
       ∃ found, re_search subfilter line = Ok found ∧ keep found = true).
Proof.
  revert kept. induction lines as [|line lines IH]; intros kept; simpl.
  - intros [= <-]. split; [done|]. by intros line ?%elem_of_nil.
  - destruct (re_search subfilter line) as [found|e] eqn:Hfound; [|done]. simpl.
    destruct (select_lines re_search keep subfilter lines) as [kept'|e]; [|done]. simpl.
    destruct (IH kept' eq_refl) as [Hsub Hall].
    destruct (keep found) eqn:Hkeep; intros [= <-].
    + split; [by apply sublist_skip|].
      intros l [->|Hl]%elem_of_cons; [by exists found|by apply Hall].
    + split; [by apply sublist_cons|done].
Qed.

Lemma select_lines_partition subfilter lines kept dropped :
  select_lines re_search (fun found => found) subfilter lines = Ok kept ->
  select_lines re_search negb subfilter lines = Ok dropped ->
  kept ++ dropped ≡ₚ lines.
Proof.
  revert kept dropped. induction lines as [|line lines IH]; intros kept dropped; simpl.
  - by intros [= <-] [= <-].
  - destruct (re_search subfilter line) as [found|e]; [|done]. simpl.
    destruct (select_lines re_search (fun found => found) subfilter lines)
      as [kept'|e]; [|done].
    destruct (select_lines re_search negb subfilter lines) as [dropped'|e]; [|done].
    simpl. specialize (IH kept' dropped' eq_refl eq_refl).
    destruct found; simpl; intros [= <-] [= <-].
    + simpl. by rewrite IH.
    + rewrite <- Permutation_middle. by rewrite IH.
Qed.

(** C10: when [grep] and [grepi] both return on a content and an
    expression, their outputs are the lines they keep joined by line
    feeds; the kept lines of each are a subsequence of the input lines
    (relative order preserved), the two together are the input lines,
    each exactly once, [grep] keeps lines on which the search finds the
    expression and [grepi] lines on which it does not.  Both raise the
    missing argument error when the subfilter is [None]. *)
Theorem C10_grep_grepi_partition data :
  (∀ subfilter out_grep out_grepi,
     GrepFilter_filter splitlines re_search data subfilter = Ok out_grep ->
     InverseGrepFilter_filter splitlines re_search data subfilter = Ok out_grepi ->
     ∃ kept dropped,
       out_grep = join LF kept ∧ out_grepi = join LF dropped
       ∧ kept `sublist_of` splitlines data
       ∧ dropped `sublist_of` splitlines data
       ∧ kept ++ dropped ≡ₚ splitlines data
       ∧ (∀ line, line ∈ kept -> re_search subfilter line = Ok true)
       ∧ (∀ line, line ∈ dropped -> re_search subfilter line = Ok false))
  ∧ (∃ msg, GrepFilter_filter splitlines re_search data SNone
            = Raise (MissingArgument msg))
  ∧ (∃ msg, InverseGrepFilter_filter splitlines re_search data SNone
            = Raise (MissingArgument msg)).
Proof.
  split; [|split; by eexists].
  intros subfilter out_grep out_grepi Hgrep Hgrepi.
  assert (∃ kept, select_lines re_search (fun found => found) subfilter (splitlines data)
                  = Ok kept ∧ out_grep = join LF kept) as (kept & Hkept & ->).
  { unfold GrepFilter_filter in Hgrep.
    destruct subfilter; [done| |];
      (destruct (select_lines re_search _ _ (splitlines data)) as [kept|e]; [|done]);
      injection Hgrep as <-; by exists kept. }
  assert (∃ dropped, select_lines re_search negb subfilter (splitlines data)
                     = Ok dropped ∧ out_grepi = join LF dropped) as (dropped & Hdropped & ->).
  { unfold InverseGrepFilter_filter in Hgrepi.
    destruct subfilter; [done| |];
      (destruct (select_lines re_search _ _ (splitlines data)) as [dropped|e]; [|done]);
      injection Hgrepi as <-; by exists dropped. }
  exists kept, dropped.
  destruct (select_lines_sublist _ _ _ _ Hkept) as [Hsub1 Hall1].
  destruct (select_lines_sublist _ _ _ _ Hdropped) as [Hsub2 Hall2].
  repeat split; try done.
  - by apply (select_lines_partition subfilter).
  - intros line (found & Hfound & Hkeep)%Hall1. by subst.
  - intros line (found & Hfound & Hkeep)%Hall2. by destruct found.
Qed.
End UnitProperties.

Lemma C8_no_subfilter_units_witness :
  HexdumpFilter_filter "A" (SStr "x") = Raise (UnsupportedArgument "hexdump").
Proof.
  apply (proj1 (C8_no_subfilter_units (fun s => s) (fun s => Ok s) (fun s => s) "A")
           (SStr "x")).
  discriminate.
Defined.

Lemma C10_grep_grepi_partition_witness :
  ∃ kept dropped,
    "gamma" = join LF kept ∧ "alpha" +:+ LF +:+ "beta" = join LF dropped
    ∧ kept ++ dropped ≡ₚ splitlines_lf ("alpha" +:+ LF +:+ "beta" +:+ LF +:+ "gamma").
Proof.
  destruct (proj1 (C10_grep_grepi_partition splitlines_lf re_search_literal
                     ("alpha" +:+ LF +:+ "beta" +:+ LF +:+ "gamma"))
              (SStr "m") "gamma" ("alpha" +:+ LF +:+ "beta") eq_refl eq_refl)
    as (kept & dropped & Hk & Hd & _ & _ & Hperm & _).
  by exists kept, dropped.
Defined.

(** ** More on the element extractor *)

Section ExtractorStates.
Implicit Types (p q : ElementsBy) (e : event) (events : list event).

Lemma criterion_same p q tag attrs :
  same_criterion p q -> criterion q tag attrs = criterion p tag attrs.
Proof. intros (H1 & H2 & H3). unfold criterion. by rewrite H1, H2, H3. Qed.

Lemma no_match_same p q events : same_criterion p q -> no_match q events = no_match p events.
Proof.
  intros Hsame. unfold no_match.
  induction events as [|[tag attrs| |] events IH]; simpl; [done| |done..].
  by rewrite IH, (criterion_same p q).
Qed.

Lemma handle_outside_no_match p e events :
  _inside p = false -> no_match p (e :: events) = true ->
  handle p e = p ∧ no_match p events = true.
Proof.
  intros Hout Hno. unfold no_match in Hno. simpl in Hno.
  apply andb_true_iff in Hno as [He Hno]. split; [|done].
  destruct e as [tag attrs|tag|data]; simpl.
  - apply negb_true_iff in He. unfold handle_starttag. by rewrite He, Hout.
  - unfold handle_endtag. by rewrite Hout.
  - unfold handle_data. by rewrite Hout.
Qed.

Lemma feed_outside_no_match events p :
  _inside p = false -> no_match p events = true -> feed p events = p.
Proof.
  induction events as [|e events IH]; intros Hout Hno; [done|].
  destruct (handle_outside_no_match p e events Hout Hno) as [He Hrest].
  change (feed p (e :: events)) with (feed (handle p e) events).
  rewrite He. by apply IH.
Qed.

(** Inside, the stack is not empty. *)
Lemma handle_inside_nonempty p e :
  (_inside p = true -> _elts p ≠ []) ->
  _inside (handle p e) = true -> _elts (handle p e) ≠ [].
Proof.
  intros Hinv. destruct e as [tag attrs|tag|data]; simpl.
  - unfold handle_starttag.
    destruct (criterion p tag attrs); [done|].
    destruct (_inside p) eqn:Hin; simpl; [done|congruence].
  - unfold handle_endtag. destruct (_inside p) eqn:Hin; simpl; [|congruence].
    by destruct (if bool_decide (tag ∈ _elts p) then _ else _).
  - unfold handle_data. destruct (_inside p) eqn:Hin; simpl; [|congruence].
    intros _. by apply Hinv.
Qed.

Lemma feed_inside_nonempty events p :
  (_inside p = true -> _elts p ≠ []) ->
  _inside (feed p events) = true -> _elts (feed p events) ≠ [].
Proof.
  revert p. induction events as [|e events IH]; intros p Hinv; [done|].
  apply (IH (handle p e)), handle_inside_nonempty, Hinv.
Qed.

(** X1: after any stream of events the parser is inside exactly when the
    tag stack is not empty; in particular the capture is never left
    open on an empty stack. *)
Theorem extraction_inside_iff_stack_nonempty filter_by name value events :
  _inside (feed (ElementsBy_init filter_by name value) events)
  = negb (bool_decide (_elts (feed (ElementsBy_init filter_by name value) events) = [])).
Proof.
  set (q := feed (ElementsBy_init filter_by name value) events).
  assert (stack_inv q) as Hout
    by apply feed_stack_inv, init_stack_inv.
  assert (_inside q = true -> _elts q ≠ []) as Hin
    by (apply feed_inside_nonempty; done).
  destruct (_inside q) eqn:Hi.
  - rewrite bool_decide_eq_false_2; [done|]. by apply Hin.
  - rewrite bool_decide_eq_true_2; [done|]. by apply Hout.
Qed.

(** X2: when no start tag of the stream satisfies the criterion, nothing
    is captured: the result is the empty string and the parser is
    outside at the end, whatever end tags and text the stream holds. *)
Theorem extraction_without_match_is_empty filter_by name value events :
  no_match (ElementsBy_init filter_by name value) events = true ->
  get_html (feed (ElementsBy_init filter_by name value) events) = EmptyString
  ∧ _inside (feed (ElementsBy_init filter_by name value) events) = false.
Proof. intros Hno. by rewrite feed_outside_no_match. Qed.

Lemma extraction_without_match_is_empty_witness :
  get_html (feed (ElementsBy_init ATTRIBUTE "id" (Some "x"))
              [StartTag "p" [("id", Some "y")]; Data "before"; EndTag "p"; EndTag "div"])
  = EmptyString.
Proof.
  apply (extraction_without_match_is_empty ATTRIBUTE "id" (Some "x")
           [StartTag "p" [("id", Some "y")]; Data "before"; EndTag "p"; EndTag "div"]).
  vm_compute. reflexivity.
Defined.

Lemma element_body_feed events open p :
  _inside p = true -> _elts p = open -> element_body open events = true ->
  _result (feed p events) = _result p ++ (fragment <$> events)
  ∧ _inside (feed p events) = false
  ∧ _elts (feed p events) = [].
Proof.
  revert open p. induction events as [|e events IH]; intros open p Hin Helts Hbody;
    [done|].
  change (feed p (e :: events)) with (feed (handle p e) events).
  rewrite fmap_cons, (cons_middle (fragment e)), app_assoc.
  rewrite <- (handle_result_inside p e Hin).
  destruct e as [tag attrs|tag|data]; simpl in Hbody.
  - apply (IH (tag :: open)); [| |done];
      simpl; unfold handle_starttag; rewrite Hin;
      destruct (criterion p tag attrs); simpl; by rewrite ?Helts.
  - destruct open as [|o open']; [done|].
    apply andb_true_iff in Hbody as [->%bool_decide_eq_true_1 Hbody].
    assert (_elts (handle p (EndTag tag)) = open') as Helts'.
    { simpl. unfold handle_endtag. rewrite Hin, Helts. simpl.
      rewrite bool_decide_eq_true_2 by left. apply pop_while_found. }
    assert (_inside (handle p (EndTag tag))
            = match open' with [] => false | _ => true end) as Hin'.
    { simpl. unfold handle_endtag. rewrite Hin, Helts. simpl.
      rewrite bool_decide_eq_true_2 by left. simpl. rewrite pop_while_found.
      by destruct open'. }
    destruct open' as [|o' open'].
    + destruct events; [|done]. simpl. by rewrite app_nil_r.
    + by apply (IH (o' :: open')).
  - apply (IH open); [| |done];
      simpl; unfold handle_data; rewrite Hin; simpl; by rewrite ?Hin.
Qed.

(** X3: a well-nested element whose start tag satisfies the criterion is
    returned as it stands, every fragment of it in order and nothing
    else, when no start tag before or after it satisfies the criterion;
    the parser is outside at the end. *)
Theorem extraction_of_element_is_verbatim filter_by name value before tag attrs body after :
  no_match (ElementsBy_init filter_by name value) before = true ->
  criterion (ElementsBy_init filter_by name value) tag attrs = true ->
  element (StartTag tag attrs :: body) = true ->
  no_match (ElementsBy_init filter_by name value) after = true ->
  get_html (feed (ElementsBy_init filter_by name value)
              (before ++ (StartTag tag attrs :: body) ++ after))
  = join EmptyString (fragment <$> StartTag tag attrs :: body)
  ∧ _inside (feed (ElementsBy_init filter_by name value)
               (before ++ (StartTag tag attrs :: body) ++ after)) = false.
Proof.
  set (p := ElementsBy_init filter_by name value).
  intros Hbefore Hc Hbody Hafter.
  rewrite !feed_app, (feed_outside_no_match before p) by done.
  change (feed p (StartTag tag attrs :: body))
    with (feed (handle_starttag p tag attrs) body).
  destruct (handle_starttag_match p tag attrs Hc) as [Hin Hres].
  assert (_elts (handle_starttag p tag attrs) = [tag]) as Helts
    by (unfold handle_starttag; by rewrite Hc).
  destruct (element_body_feed body [tag] _ Hin Helts Hbody) as (Hr & Hout & _).
  rewrite feed_outside_no_match; [|done|].
  - split; [|done]. unfold get_html. by rewrite Hr, Hres.
  - rewrite <- Hafter. apply no_match_same.
    destruct (feed_same_criterion body (handle_starttag p tag attrs)) as (H1 & H2 & H3).
    destruct (handle_same_criterion p (StartTag tag attrs)) as (H4 & H5 & H6).
    change (handle p (StartTag tag attrs)) with (handle_starttag p tag attrs) in H4, H5, H6.
    unfold same_criterion. by rewrite H1, H2, H3, H4, H5, H6.
Qed.

Lemma extraction_of_element_is_verbatim_witness :
  get_html (feed (ElementsBy_init ATTRIBUTE "id" (Some "x"))
              ([StartTag "p" []; Data "before"; EndTag "p"]
               ++ [StartTag "div" [("id", Some "x")]; Data "A"; StartTag "span" [];
                   Data "B"; EndTag "span"; EndTag "div"]
               ++ [StartTag "p" []; Data "after"; EndTag "p"]))
  = join EmptyString
      (fragment <$> [StartTag "div" [("id", Some "x")]; Data "A"; StartTag "span" [];
                     Data "B"; EndTag "span"; EndTag "div"]).
Proof.
  apply (extraction_of_element_is_verbatim ATTRIBUTE "id" (Some "x")
           [StartTag "p" []; Data "before"; EndTag "p"]
           "div" [("id", Some "x")]
           [Data "A"; StartTag "span" []; Data "B"; EndTag "span"; EndTag "div"]
           [StartTag "p" []; Data "after"; EndTag "p"]);
    vm_compute; reflexivity.
Defined.
Lemma feed_first_fragment events p frag rest :
  _inside p = false -> _result p = [] ->
  _result (feed p events) = frag :: rest ->
  ∃ tag attrs, StartTag tag attrs ∈ events
               ∧ criterion p tag attrs = true
               ∧ frag = start_fragment tag attrs.
Proof.
  induction events as [|e events IH]; intros Hout Hempty Hres.
  - simpl in Hres. congruence.
  - change (feed p (e :: events)) with (feed (handle p e) events) in Hres.
    destruct (no_match p [e]) eqn:Hno.
    + destruct (handle_outside_no_match p e [] Hout Hno) as [He _].
      rewrite He in Hres. destruct (IH Hout Hempty Hres) as (tag & attrs & Hin & H).
      exists tag, attrs. split; [by right|done].
    + destruct e as [tag attrs| |]; [|done..].
      unfold no_match in Hno. simpl in Hno. rewrite andb_true_r in Hno.
      apply negb_false_iff in Hno.
      destruct (handle_starttag_match p tag attrs Hno) as [_ Hfirst].
      destruct (feed_result_sublist events (handle p (StartTag tag attrs)))
        as (frags & Hfrags & _).
      rewrite Hfrags in Hres. simpl in Hres. rewrite Hfirst, Hempty in Hres.
      injection Hres as <- _. exists tag, attrs. split; [by left|done].
Qed.

(** X4: a result that is not empty begins with the serialized start tag
    of an element of the stream that satisfies the criterion: output
    never starts in the middle of an element, with text or with a
    closing tag. *)
Theorem extraction_begins_with_matching_tag filter_by name value events frag rest :
  _result (feed (ElementsBy_init filter_by name value) events) = frag :: rest ->
  ∃ tag attrs, StartTag tag attrs ∈ events
               ∧ criterion (ElementsBy_init filter_by name value) tag attrs = true
               ∧ frag = start_fragment tag attrs.
Proof. by apply feed_first_fragment. Qed.

Lemma extraction_begins_with_matching_tag_witness :
  ∃ tag attrs,
    StartTag tag attrs ∈ [Data "t"; EndTag "p"; StartTag "div" []; Data "A"]
    ∧ criterion (ElementsBy_init TAG "div" None) tag attrs = true
    ∧ "<div>" = start_fragment tag attrs.
Proof.
  apply (extraction_begins_with_matching_tag TAG "div" None
           [Data "t"; EndTag "p"; StartTag "div" []; Data "A"] "<div>" ["A"]).
  vm_compute. reflexivity.
Defined.

Lemma pop_while_suffix tag t elts : pop_while tag t elts `suffix_of` elts.
Proof.
  revert t. induction elts as [|t' elts IH]; intros t; simpl; [done|].
  destruct (bool_decide (t = tag)); [done|]. by apply suffix_cons_r.
Qed.

Lemma pop_to_suffix tag elts : pop_to tag elts `suffix_of` elts.
Proof.
  destruct elts as [|t elts]; simpl; [done|].
  apply suffix_cons_r, pop_while_suffix.
Qed.

Lemma handle_elts_sublist p e :
  _elts (handle p e) `sublist_of` start_tags [e] ++ _elts p.
Proof.
  destruct e as [tag attrs|tag|data]; simpl.
  - unfold handle_starttag.
    destruct (if criterion p tag attrs then true else _inside p); simpl;
      [done|by apply sublist_cons].
  - unfold handle_endtag. destruct (_inside p); simpl; [|done].
    destruct (bool_decide (tag ∈ _elts p)); [|done].
    destruct (pop_to_suffix tag (_elts p)) as [k Hk].
    rewrite Hk at 2. by apply sublist_inserts_l.
  - unfold handle_data. by destruct (_inside p).
Qed.

Lemma feed_elts_sublist events p :
  _elts (feed p events) `sublist_of` reverse (start_tags events) ++ _elts p.
Proof.
  revert p. induction events as [|e events IH]; intros p; [done|].
  change (feed p (e :: events)) with (feed (handle p e) events).
  etrans; [apply IH|].
  replace (start_tags (e :: events)) with (start_tags [e] ++ start_tags events)
    by (by destruct e).
  rewrite reverse_app, <- app_assoc.
  apply sublist_app; [done|].
  etrans; [apply handle_elts_sublist|].
  apply sublist_app; [|done].
  destruct e; simpl; done.
Qed.

(** X5: the tag stack, innermost element first, is a subsequence of the
    names of the start tags of the stream taken from the last to the
    first: an entry is always the name of a start tag seen, entries are
    in document order, and the depth is at most the number of start
    tags. *)
Theorem extraction_stack_of_start_tags filter_by name value events :
  _elts (feed (ElementsBy_init filter_by name value) events)
  `sublist_of` reverse (start_tags events)
  ∧ length (_elts (feed (ElementsBy_init filter_by name value) events))
    ≤ length (start_tags events).
Proof.
  pose proof (feed_elts_sublist events (ElementsBy_init filter_by name value)) as Hsub.
  simpl in Hsub. rewrite app_nil_r in Hsub. split; [done|].
  apply sublist_length in Hsub. by rewrite length_reverse in Hsub.
Qed.

Lemma dict_snoc attrs k v : dict (attrs ++ [(k, v)]) = <[ k := v ]> (dict attrs).
Proof. unfold dict. by rewrite foldl_app. Qed.

Lemma dict_lookup_absent attrs k : k ∉ attrs.*1 -> dict attrs !! k = None.
Proof.
  induction attrs as [|[k' v'] attrs IH] using rev_ind; intros Hk; [done|].
  rewrite fmap_app, not_elem_of_app in Hk. destruct Hk as [Hk Hne].
  rewrite dict_snoc, lookup_insert_ne; [by apply IH|].
  intros ->. apply Hne. simpl. left.
Qed.

Lemma criterion_attribute name value tag attrs :
  criterion (ElementsBy_init ATTRIBUTE name value) tag attrs
  = bool_decide (dict_get (dict attrs) name = value).
Proof.
  unfold criterion. simpl. rewrite map_to_list_singleton. simpl.
  by rewrite andb_true_r.
Qed.

(** X6: in attribute mode the tag name plays no part and, for an
    attribute given more than once, the last value decides; an attribute
    of another name changes nothing; and a tag without the attribute
    satisfies the criterion only for the value [None], which is the
    default of the constructor. *)
Theorem attribute_criterion_last_value_decides name value tag attrs :
  (∀ v, criterion (ElementsBy_init ATTRIBUTE name value) tag (attrs ++ [(name, v)])
        = bool_decide (v = value))
  ∧ (∀ k v, k ≠ name ->
       criterion (ElementsBy_init ATTRIBUTE name value) tag (attrs ++ [(k, v)])
       = criterion (ElementsBy_init ATTRIBUTE name value) tag attrs)
  ∧ (name ∉ attrs.*1 ->
     criterion (ElementsBy_init ATTRIBUTE name value) tag attrs
     = bool_decide (value = None))
  ∧ (∀ tag', criterion (ElementsBy_init ATTRIBUTE name value) tag' attrs
             = criterion (ElementsBy_init ATTRIBUTE name value) tag attrs).
Proof.
  rewrite !criterion_attribute. repeat split.
  - intros v. rewrite criterion_attribute, dict_snoc.
    unfold dict_get. by rewrite lookup_insert_eq.
  - intros k v Hk. rewrite criterion_attribute, dict_snoc.
    unfold dict_get. by rewrite lookup_insert_ne.
  - intros Habsent. unfold dict_get. rewrite (dict_lookup_absent _ _ Habsent).
    apply bool_decide_ext. split; congruence.
  - intros tag'. by rewrite criterion_attribute.
Qed.

Lemma attribute_criterion_last_value_decides_witness :
  criterion (ElementsBy_init ATTRIBUTE "id" (Some "x")) "div"
    ([("id", Some "y")] ++ [("class", Some "c")])
  = criterion (ElementsBy_init ATTRIBUTE "id" (Some "x")) "div" [("id", Some "y")].
Proof.
  apply (proj1 (proj2 (attribute_criterion_last_value_decides
                         "id" (Some "x") "div" [("id", Some "y")]))
           "class" (Some "c")).
  discriminate.
Defined.
End ExtractorStates.

(** ** More on the match strategies *)

Section MatchMore.
Context {pattern : Type} (pattern_match : pattern -> string -> bool).
Implicit Types (j : Job) (C : gmap string string) (R : gmap string pattern).

(** X7: an attribute-equality match survives every extension of the
    descriptor and every reduction of the criterion: adding entries to
    the job or dropping required pairs never turns a match into a
    mismatch. *)
Theorem AutoMatchFilter_match_monotone C C' j j' :
  C' ⊆ C -> to_dict j ⊆ to_dict j' ->
  AutoMatchFilter_match (Some C) j = true ->
  AutoMatchFilter_match (Some C') j' = true.
Proof.
  rewrite !AutoMatchFilter_match_spec. intros HC Hd Hall k v Hk.
  eapply lookup_weaken; [|exact Hd]. apply Hall.
  eapply lookup_weaken; [exact Hk|exact HC].
Qed.

Lemma AutoMatchFilter_match_monotone_witness :
  AutoMatchFilter_match (Some {[ "url" := "http://example.org/" ]})
    (mkJob {[ "url" := "http://example.org/"; "name" := "example" ]} "http://example.org/")
  = true.
Proof.
  apply (AutoMatchFilter_match_monotone
           {[ "url" := "http://example.org/" ]} {[ "url" := "http://example.org/" ]}
           (mkJob {[ "url" := "http://example.org/" ]} "http://example.org/")
           (mkJob {[ "url" := "http://example.org/"; "name" := "example" ]}
                  "http://example.org/")).
  - done.
  - simpl. apply map_subseteq_spec. intros k v Hk.
    apply lookup_singleton_Some in Hk as [<- <-]. vm_compute. reflexivity.
  - vm_compute. reflexivity.
Defined.

(** X8: both match strategies read the descriptor only at the keys of
    the criterion: two jobs that agree on these keys get the same
    answer, whatever else they hold. *)
Theorem match_reads_criterion_keys_only C R j j' :
  ((∀ k, is_Some (C !! k) -> to_dict j !! k = to_dict j' !! k) ->
   AutoMatchFilter_match (Some C) j = AutoMatchFilter_match (Some C) j')
  ∧ ((∀ k, is_Some (R !! k) -> to_dict j !! k = to_dict j' !! k) ->
     RegexMatchFilter_match pattern_match (Some R) j
     = RegexMatchFilter_match pattern_match (Some R) j').
Proof.
  split; intros Hagree; apply eq_true_iff_eq.
  - rewrite !AutoMatchFilter_match_spec.
    split; intros Hall k v Hk; specialize (Hall k v Hk);
      specialize (Hagree k (mk_is_Some _ _ Hk)); congruence.
  - rewrite !RegexMatchFilter_match_spec.
    split; intros [(k & HR & Hd) Hall]; (split;
      [exists k; split; [done|]; specialize (Hagree k HR); congruence
      |intros k' pat x Hk' Hx; apply (Hall k' pat x Hk');
       specialize (Hagree k' (mk_is_Some _ _ Hk')); congruence]).
Qed.

(** X9: an empty criterion is where the two strategies part: the
    attribute-equality match holds for every job, the regex match for
    none; without a criterion ([MATCH] left at [None]) neither holds. *)
Theorem match_on_empty_criterion j :
  AutoMatchFilter_match (Some ∅) j = true
  ∧ RegexMatchFilter_match pattern_match (Some ∅) j = false
  ∧ AutoMatchFilter_match None j = false
  ∧ RegexMatchFilter_match pattern_match None j = false.
Proof.
  split; [|split; [|done]].
  - apply AutoMatchFilter_match_spec. intros k v Hk. by rewrite lookup_empty in Hk.
  - apply not_true_is_false.
    intros [(k & [pat Hk] & _) _]%RegexMatchFilter_match_spec.
    by rewrite lookup_empty in Hk.
Qed.
End MatchMore.

Lemma match_reads_criterion_keys_only_witness :
  AutoMatchFilter_match (Some {[ "url" := "http://example.org/" ]})
    (mkJob {[ "url" := "http://example.org/" ]} "a")
  = AutoMatchFilter_match (Some {[ "url" := "http://example.org/" ]})
      (mkJob {[ "url" := "http://example.org/"; "name" := "example" ]} "b").
Proof.
  apply (proj1 (match_reads_criterion_keys_only String.prefix
                  {[ "url" := "http://example.org/" ]} ∅
                  (mkJob {[ "url" := "http://example.org/" ]} "a")
                  (mkJob {[ "url" := "http://example.org/"; "name" := "example" ]} "b"))).
  intros k [v Hk]. apply lookup_singleton_Some in Hk as [<- _].
  vm_compute. reflexivity.
Defined.

(** ** More on the dispatch engine *)

Section DispatchMore.
Implicit Types (cls : FilterBase) (state : State) (f : FilterCls) (fs : list FilterCls).

Lemma auto_loop_filter fs state data :
  auto_loop fs state data
  = auto_loop (filter (fun f => cls_match f (job state)) fs) state data.
Proof.
  revert data. induction fs as [|f fs IH]; intros data; [done|].
  rewrite filter_cons. case_decide as Hm.
  - apply Is_true_true in Hm. simpl. rewrite Hm.
    destruct (cls_filter f (job state) data SNone); simpl; [apply IH|done].
  - apply Is_true_false in Hm. simpl. rewrite Hm. apply IH.
Qed.

(** X10: only the classes whose [match] is true take part in
    [auto_process]: leaving the others out of the visiting order does not
    change the result, be it a content or an exception. *)
Theorem auto_process_runs_matching_only cls state data :
  auto_process cls state data
  = auto_loop (filter (fun f => cls_match f (job state)) (filters cls)) state data.
Proof. apply auto_loop_filter. Qed.

(** X11: when no registered class matches the job, with a kind or
    anonymous, [auto_process] hands the content back unchanged and
    raises nothing. *)
Theorem auto_process_without_match_is_identity cls state data :
  (∀ kind f, __subclasses__ cls !! kind = Some f -> cls_match f (job state) = false) ->
  (∀ f, f ∈ __anonymous_subclasses__ cls -> cls_match f (job state) = false) ->
  auto_process cls state data = Ok data.
Proof.
  intros Hnamed Hanon. unfold auto_process.
  assert (∀ f, f ∈ filters cls -> cls_match f (job state) = false) as Hall.
  { intros f [[kind Hk]|Ha]%elem_of_filters; eauto. }
  induction (filters cls) as [|f fs IH]; [done|].
  simpl. rewrite (Hall f) by left. apply IH. intros g Hg. apply Hall. by right.
Qed.

Lemma auto_process_without_match_is_identity_witness :
  auto_process (mkFilterBase {[ "hexdump" := HexdumpFilter ]} []) example_state "A"
  = Ok "A".
Proof.
  apply auto_process_without_match_is_identity.
  - intros kind f Hk. simpl in Hk.
    apply lookup_singleton_Some in Hk as [_ <-]. reflexivity.
  - intros f Hf. by apply elem_of_nil in Hf.
Defined.

(** X12: an exception of a matching class ends [auto_process] with that
    exception: the content the classes before it produced is not
    returned, and the classes after it have no say in the result. *)
Theorem auto_process_aborts_on_exception cls state data before f after seen e :
  filters cls = before ++ f :: after ->
  auto_loop before state data = Ok seen ->
  cls_match f (job state) = true ->
  cls_filter f (job state) seen SNone = Raise e ->
  auto_process cls state data = Raise e.
Proof.
  intros Hfs Hbefore Hm He. unfold auto_process.
  rewrite Hfs, auto_loop_app, Hbefore. simpl. by rewrite Hm, He.
Qed.

Lemma auto_process_aborts_on_exception_witness :
  auto_process
    (mkFilterBase {[ "hexdump" := HexdumpFilter ]}
       [AutoMatchFilter_subclass ∅ (fun _ => Raise (ExternalError "boom"));
        AutoMatchFilter_subclass ∅ (fun data => Ok (data +:+ "!"))])
    example_state "A"
  = Raise (ExternalError "boom").
Proof.
  apply (auto_process_aborts_on_exception _ example_state "A"
           [HexdumpFilter]
           (AutoMatchFilter_subclass ∅ (fun _ => Raise (ExternalError "boom")))
           [AutoMatchFilter_subclass ∅ (fun data => Ok (data +:+ "!"))]
           "A" (ExternalError "boom"));
    vm_compute; reflexivity.
Defined.
End DispatchMore.

(** ** More on the line filters *)

Section LineFilters.
Context (splitlines : string -> list string)
        (re_search : Subfilter -> string -> result bool).

Lemma select_lines_filter keep subfilter lines kept :
  select_lines re_search keep subfilter lines = Ok kept ->
  kept = List.filter (fun line => match re_search subfilter line with
                                  | Ok found => keep found
                                  | Raise _ => false
                                  end) lines.
Proof.
  revert kept. induction lines as [|line lines IH]; intros kept; simpl.
  - by intros [= <-].
  - destruct (re_search subfilter line) as [found|e]; [|done]. simpl.
    destruct (select_lines re_search keep subfilter lines) as [kept'|e]; [|done].
    simpl. intros [= <-]. rewrite <- (IH kept' eq_refl). by destruct (keep found).
Qed.

Lemma select_lines_raise keep1 keep2 subfilter lines e :
  select_lines re_search keep1 subfilter lines = Raise e
  <-> select_lines re_search keep2 subfilter lines = Raise e.
Proof.
  induction lines as [|line lines IH]; simpl; [done|].
  destruct (re_search subfilter line) as [found|e']; [|done]. simpl.
  destruct (select_lines re_search keep1 subfilter lines) as [kept1|e1];
    destruct (select_lines re_search keep2 subfilter lines) as [kept2|e2]; simpl.
  - done.
  - split; [done|]. intros He. by apply IH in He.
  - split; [|done]. intros He. by apply IH in He.
  - exact IH.
Qed.

Lemma select_lines_returns keep subfilter lines :
  (∃ kept, select_lines re_search keep subfilter lines = Ok kept)
  <-> Forall (fun line => ∃ found, re_search subfilter line = Ok found) lines.
Proof.
  induction lines as [|line lines IH]; simpl.
  - split; [by constructor|by eexists].
  - rewrite Forall_cons, <- IH.
    destruct (re_search subfilter line) as [found|e]; simpl.
    + destruct (select_lines re_search keep subfilter lines) as [kept|e]; simpl.
      * split; [intros _; split; by eexists|by eexists].
      * split; [by intros [? ?]|by intros [_ [? ?]]].
    + split; [by intros [? ?]|by intros [[? ?] _]].
Qed.

(** X13: what [grep] returns is the lines on which the search finds the
    expression, all of them and in the order of the content, joined by
    line feeds; what [grepi] returns is, in the same way, the lines on
    which the search finds nothing. *)
Theorem grep_output_is_filtered_lines data subfilter out :
  (GrepFilter_filter splitlines re_search data subfilter = Ok out ->
   out = join LF (List.filter (fun line => search_found (re_search subfilter line))
                              (splitlines data)))
  ∧ (InverseGrepFilter_filter splitlines re_search data subfilter = Ok out ->
     out = join LF (List.filter (fun line => search_missed (re_search subfilter line))
                                (splitlines data))).
Proof.
  split; intros H.
  - assert (∃ kept, select_lines re_search (fun found => found) subfilter (splitlines data)
                    = Ok kept ∧ out = join LF kept) as (kept & Hkept & ->).
    { unfold GrepFilter_filter in H. destruct subfilter; [done| |];
        (destruct (select_lines re_search _ _ (splitlines data)) as [kept|e]; [|done]);
        injection H as <-; by exists kept. }
    f_equal. rewrite (select_lines_filter _ _ _ _ Hkept).
    apply List.filter_ext. intros line.
    by destruct (re_search subfilter line) as [[]|].
  - assert (∃ kept, select_lines re_search negb subfilter (splitlines data)
                    = Ok kept ∧ out = join LF kept) as (kept & Hkept & ->).
    { unfold InverseGrepFilter_filter in H. destruct subfilter; [done| |];
        (destruct (select_lines re_search _ _ (splitlines data)) as [kept|e]; [|done]);
        injection H as <-; by exists kept. }
    f_equal. rewrite (select_lines_filter _ _ _ _ Hkept).
    apply List.filter_ext. intros line.
    by destruct (re_search subfilter line) as [[]|].
Qed.

Lemma grep_as_select_lines data subfilter :
  subfilter ≠ SNone ->
  GrepFilter_filter splitlines re_search data subfilter
  = (let! kept := select_lines re_search (fun found => found) subfilter (splitlines data) in
     Ok (join LF kept))
  ∧ InverseGrepFilter_filter splitlines re_search data subfilter
    = (let! kept := select_lines re_search negb subfilter (splitlines data) in
       Ok (join LF kept)).
Proof. by destruct subfilter. Qed.

(** X14: given an expression, [grep] and [grepi] return on the same
    contents, those on every line of which the search returns, and
    raise the same exception on the others; a content without lines is
    accepted with any expression, since the search is never run. *)
Theorem grep_and_grepi_fail_together data subfilter :
  subfilter ≠ SNone ->
  ((∃ out, GrepFilter_filter splitlines re_search data subfilter = Ok out)
   <-> Forall (fun line => ∃ found, re_search subfilter line = Ok found)
              (splitlines data))
  ∧ ((∃ out, InverseGrepFilter_filter splitlines re_search data subfilter = Ok out)
     <-> Forall (fun line => ∃ found, re_search subfilter line = Ok found)
                (splitlines data))
  ∧ (∀ e, GrepFilter_filter splitlines re_search data subfilter = Raise e
          <-> InverseGrepFilter_filter splitlines re_search data subfilter = Raise e)
  ∧ (splitlines data = [] ->
     GrepFilter_filter splitlines re_search data subfilter = Ok EmptyString
     ∧ InverseGrepFilter_filter splitlines re_search data subfilter = Ok EmptyString).
Proof.
  intros Hsome. destruct (grep_as_select_lines data subfilter Hsome) as [-> ->].
  repeat split.
  - intros [out H]. apply (select_lines_returns (fun found => found)).
    destruct (select_lines _ _ _ _) as [kept|e]; [by eexists|done].
  - intros [kept ->]%(select_lines_returns (fun found => found)). by eexists.
  - intros [out H]. apply (select_lines_returns negb).
    destruct (select_lines _ _ _ _) as [kept|e]; [by eexists|done].
  - intros [kept ->]%(select_lines_returns negb). by eexists.
  - intros H.
    destruct (select_lines re_search (fun found => found) _ _) as [kept|e'] eqn:Hs;
      [done|]. simpl in H. injection H as ->.
    apply (select_lines_raise _ negb) in Hs. by rewrite Hs.
  - intros H.
    destruct (select_lines re_search negb _ _) as [kept|e'] eqn:Hs; [done|].
    simpl in H. injection H as ->.
    apply (select_lines_raise _ (fun found => found)) in Hs. by rewrite Hs.
  - by rewrite H.
  - by rewrite H.
Qed.
End LineFilters.

Lemma grep_output_is_filtered_lines_witness :
  "gamma"
  = join LF (List.filter (fun line => search_found (re_search_literal (SStr "m") line))
               (splitlines_lf ("alpha" +:+ LF +:+ "beta" +:+ LF +:+ "gamma"))).
Proof.
  apply (proj1 (grep_output_is_filtered_lines splitlines_lf re_search_literal
                  ("alpha" +:+ LF +:+ "beta" +:+ LF +:+ "gamma") (SStr "m") "gamma")).
  vm_compute. reflexivity.
Defined.

Lemma grep_and_grepi_fail_together_witness :
  GrepFilter_filter splitlines_lf re_search_literal EmptyString (SDict ∅) = Ok EmptyString
  ∧ InverseGrepFilter_filter splitlines_lf re_search_literal EmptyString (SDict ∅)
    = Ok EmptyString.
Proof.
  apply (grep_and_grepi_fail_together splitlines_lf re_search_literal
           EmptyString (SDict ∅)).
  - discriminate.
  - reflexivity.
Defined.

(** ** The hex dump *)

Section Hexdump.
Implicit Types (data block : list ascii) (c : ascii).

Lemma blocks_take data n :
  concat (map (fun i => take 16 (drop (i * 16) data)) (seq 0 n)) = take (n * 16) data.
Proof.
  induction n as [|n IH]; [by rewrite take_0|].
  rewrite seq_S, map_app, concat_app, IH. simpl.
  rewrite app_nil_r, take_take_drop. f_equal. lia.
Qed.

Lemma blocks_count data : length (blocks data) = (length data + 15) / 16.
Proof. unfold blocks. by rewrite length_map, length_seq. Qed.

(** X15: the blocks of the dump cut the bytes of the content into
    consecutive pieces: put together again they are the content, none is
    empty, none has more than 16 bytes, and there are as many as the
    length divided by 16, rounded up (none for an empty content). *)
Theorem hexdump_blocks_partition data :
  concat (blocks data) = data
  ∧ Forall (fun block => 0 < length block ≤ 16) (blocks data)
  ∧ length (blocks data) = (length data + 15) / 16
  ∧ (data = [] -> blocks data = []).
Proof.
  split; [|split; [|split]].
  - unfold blocks. rewrite blocks_take. apply take_ge.
    pose proof (Nat.div_mod_eq (length data + (16 - 1)) 16) as Hdiv.
    pose proof (Nat.mod_upper_bound (length data + (16 - 1)) 16) as Hmod. lia.
  - unfold blocks. rewrite Forall_forall. intros block Hin.
    apply list_elem_of_In, in_map_iff in Hin as (i & <- & Hi).
    apply in_seq in Hi. rewrite length_take, length_drop.
    pose proof (Nat.div_mod_eq (length data + (16 - 1)) 16) as Hdiv.
    pose proof (Nat.mod_upper_bound (length data + (16 - 1)) 16) as Hmod. lia.
  - apply blocks_count.
  - by intros ->.
Qed.

Lemma hexdump_blocks_partition_witness : blocks [] = [].
Proof. apply (proj2 (proj2 (proj2 (hexdump_blocks_partition [])))). reflexivity. Defined.






Lemma fmt_02x_length c : String.length (fmt_02x c) = 2.
Proof. done. Qed.




End Hexdump.

(** ** The legacy hooks and the HTML converter *)

Section Collaborators.
Context (html2text : string -> string -> gmap string string -> result string).


(** X20: the HTML converter is called with the method 're' and no options
    when there is no subfilter, with the string as method and no options
    for a string, and for a dict with its 'method' entry as method and
    the other entries as options; the options never hold a 'method'
    entry.  The dict object is left without that entry, so a dict can be
    used once: a second call with the same object raises the key error,
    whatever the first call did, while [None] and a string are left as
    they are. *)
Theorem Html2TextFilter_consumes_method data data' :
  (∀ d method, d !! "method" = Some method ->
     Html2TextFilter_filter html2text data (SDict d)
     = (SDict (delete "method" d), html2text data method (delete "method" d))
     ∧ delete "method" d !! "method" = None)
  ∧ (∀ d, (Html2TextFilter_filter html2text data'
             (Html2TextFilter_filter html2text data (SDict d)).1).2
          = Raise (ExternalError "KeyError: method"))
  ∧ Html2TextFilter_filter html2text data SNone = (SNone, html2text data "re" ∅)
  ∧ (∀ s, Html2TextFilter_filter html2text data (SStr s) = (SStr s, html2text data s ∅)).
Proof.
  split; [|split; [|done]].
  - intros d method Hd. unfold Html2TextFilter_filter. rewrite Hd.
    split; [done|]. apply lookup_delete_eq.
  - intros d. unfold Html2TextFilter_filter at 2.
    destruct (d !! "method") as [method|] eqn:Hd; simpl.
    + by rewrite lookup_delete_eq.
    + by rewrite Hd.
Qed.

End Collaborators.

Lemma Html2TextFilter_consumes_method_witness :
  Html2TextFilter_filter (fun data method _ => Ok (method +:+ ":" +:+ data)) "A"
    (SDict {[ "method" := "lynx" ]})
  = (SDict (delete "method" {[ "method" := "lynx" ]}), Ok "lynx:A").
Proof.
  apply (proj1 (Html2TextFilter_consumes_method
                  (fun data method _ => Ok (method +:+ ":" +:+ data)) "A" "A")
           {[ "method" := "lynx" ]} "lynx").
  vm_compute. reflexivity.
Defined.

